(** * WebClonerPy: the crawl-and-rewrite engine of [app.py]

    A shallow embedding of the helper functions and of [ClonerWorker.run],
    with the properties of the path mapper, the reference rewriter and the
    crawl scheduler that the specification states.

    Python [str] and [bytes] values are modelled as [string] (one [ascii]
    per character), Python [int] as [Z], the visited set as a
    [gset string], the queue as a list of tuples, the parsed document as
    the list of its tags in document order, and the files on disk as a
    [gmap string string] keyed by normalised absolute path.  [os.path] is
    modelled after [posixpath].  The body of [run] is written in a state
    and exception monad; the calls of [log_message] without [emit] raise
    [TypeError], as a bound signal is not callable.

    Left out: the clock ([time.sleep], the duration of the report), the
    two signals with floating-point values, the proxy options inside [run],
    the directories ([os.makedirs] and [open] always succeed), and [stop()]
    called from another thread while [run] is executing.

    The second half follows the run as a sequence of effects, one iteration
    after the other, and proves what holds at every point of it
    (termination, the counters, the order of the queue, what the engine
    never does), the edge cases of an iteration, and the two pure parts of
    the window: the headers of the settings dialog and the proxy URL that
    [start_cloning] builds and [_init_selenium_driver] reads. *)

From Stdlib Require Import ZArith Ascii String List Lia Bool.
From stdpp Require Import base decidable option list gmap strings.
From stdpp Require Import relations sorting.

Local Open Scope Z_scope.

#[local] Set Warnings "-clear-no-such-hyp".
#[local] Arguments Ascii.eqb : simpl never.

(** ** Python string operations *)

Module Py.

Definition chars (s : string) : list ascii := list_ascii_of_string s.
Definition str (l : list ascii) : string := string_of_list_ascii l.

(** [len(s)] *)
Definition len (s : string) : Z := Z.of_nat (String.length s).

(** [not s] on a string: the empty string is falsy. *)
Definition falsy (s : string) : bool :=
  match s with EmptyString => true | _ => false end.

(** [p] is a prefix of [s]. *)
Fixpoint is_prefix (p s : string) : bool :=
  match p, s with
  | EmptyString, _ => true
  | String a p', String b s' => Ascii.eqb a b && is_prefix p' s'
  | String _ _, EmptyString => false
  end.

(** [s.startswith(p)] *)
Definition startswith (s p : string) : bool := is_prefix p s.

Fixpoint prefix_chars (p l : list ascii) : bool :=
  match p, l with
  | [], _ => true
  | a :: p', b :: l' => Ascii.eqb a b && prefix_chars p' l'
  | _ :: _, [] => false
  end.

(** [s.endswith(p)] *)
Definition endswith (s p : string) : bool :=
  prefix_chars (rev (chars p)) (rev (chars s)).

(** [sub in s] *)
Fixpoint contains (s sub : string) : bool :=
  is_prefix sub s ||
  match s with
  | EmptyString => false
  | String _ t => contains t sub
  end.

(** [c in s] for a single character. *)
Definition has_char (c : ascii) (s : string) : bool :=
  existsb (Ascii.eqb c) (chars s).

Definition lower_char (c : ascii) : ascii :=
  let n := nat_of_ascii c in
  if ((65 <=? n)%nat && (n <=? 90)%nat)%bool then ascii_of_nat (n + 32) else c.

(** [s.lower()] (on the ASCII range) *)
Definition lower (s : string) : string := str (map lower_char (chars s)).

Fixpoint lstrip_chars (set : list ascii) (l : list ascii) : list ascii :=
  match l with
  | c :: t => if existsb (Ascii.eqb c) set then lstrip_chars set t else l
  | [] => []
  end.

Definition rstrip_chars (set l : list ascii) : list ascii :=
  rev (lstrip_chars set (rev l)).

(** [s.strip(set)] *)
Definition strip (set : string) (s : string) : string :=
  str (lstrip_chars (chars set) (rstrip_chars (chars set) (chars s))).

(** [str.isspace] on the characters below 256. *)
Definition is_space (c : ascii) : bool :=
  let n := nat_of_ascii c in
  (((9 <=? n) && (n <=? 13)) || ((28 <=? n) && (n <=? 32))
   || (n =? 133) || (n =? 160))%nat%bool.

Fixpoint lstrip_ws (l : list ascii) : list ascii :=
  match l with
  | c :: t => if is_space c then lstrip_ws t else l
  | [] => []
  end.

(** [s.strip()] *)
Definition strip_ws (s : string) : string :=
  str (lstrip_ws (rev (lstrip_ws (rev (chars s))))).

(** [s.split(sep)] for a one-character separator: never the empty list. *)
Fixpoint split_chars (sep : ascii) (l : list ascii) : list (list ascii) :=
  match l with
  | [] => [[]]
  | c :: t =>
      if Ascii.eqb c sep then [] :: split_chars sep t
      else match split_chars sep t with
           | w :: ws => (c :: w) :: ws
           | [] => [[c]]
           end
  end.

Definition split (sep : ascii) (s : string) : list string :=
  map str (split_chars sep (chars s)).

(** [s[:n]] *)
Definition slice_to (n : nat) (s : string) : string := str (take n (chars s)).

(** [s.replace(old, new)]: every non-overlapping occurrence, left to right.
    [skip] counts the characters of an occurrence still to be dropped. *)
Fixpoint replace_go (old new : string) (skip : nat) (s : string) : string :=
  match s with
  | EmptyString => EmptyString
  | String c t =>
      match skip with
      | S k => replace_go old new k t
      | O => if is_prefix old s
             then new +:+ replace_go old new (String.length old - 1) t
             else String c (replace_go old new O t)
      end
  end.

(** With an empty [old] Python puts [new] before every character and at
    the end. *)
Fixpoint interleave (new : string) (s : string) : string :=
  match s with
  | EmptyString => new
  | String c t => new +:+ String c (interleave new t)
  end.

Definition replace (s old new : string) : string :=
  if falsy old then interleave new s else replace_go old new O s.

(** [sep.join(l)] *)
Fixpoint join (sep : string) (l : list string) : string :=
  match l with
  | [] => ""
  | [x] => x
  | x :: t => x +:+ sep +:+ join sep t
  end.

End Py.

(** ** Helper functions of [app.py] *)

(** The character class of the first [re.sub] of [sanitize_filename]: the
    nine characters less-than, greater-than, colon, double quote (34), slash,
    backslash (92), bar, question mark, star, and the control characters 0
    to 31. *)
Definition illegal_char (c : ascii) : bool :=
  (nat_of_ascii c <=? 31)%nat
  || existsb (Ascii.eqb c)
       ["<"; ">"; ":"; "034"; "/"; "092"; "|"; "?"; "*"]%char.

(** The first [re.sub]: every character of the class becomes an underscore. *)
Definition sub_illegal (l : list ascii) : list ascii :=
  map (fun c => if illegal_char c then "_"%char else c) l.

(** [re.sub(r'_+', '_', filename)]: each run of underscores becomes one. *)
Fixpoint collapse_underscores (l : list ascii) : list ascii :=
  match l with
  | [] => []
  | c :: t =>
      match t with
      | d :: _ =>
          if (Ascii.eqb c "_" && Ascii.eqb d "_")%bool
          then collapse_underscores t
          else c :: collapse_underscores t
      | [] => [c]
      end
  end.

Definition max_len : nat := 200.

(** The first three statements of [sanitize_filename]. *)
Definition clean_chars (l : list ascii) : list ascii :=
  let l1 := sub_illegal l in
  let l2 := collapse_underscores l1 in
  Py.lstrip_chars ["_"; " "]%char (Py.rstrip_chars ["_"; " "]%char l2).

Definition sanitize_chars (l : list ascii) : list ascii :=
  let l3 := clean_chars l in
  let l4 := match l3 with [] => Py.chars "untitled" | _ => l3 end in
  take max_len l4.

Definition sanitize_filename (filename : string) : string :=
  Py.str (sanitize_chars (Py.chars filename)).

(** ** [os.path] on a POSIX system ([posixpath]) *)

Module PosixPath.

Definition sep : string := "/".
Definition curdir : string := ".".
Definition pardir : string := "..".

Definition isabs (p : string) : bool := Py.startswith p sep.

(** One round of the loop of [join(a, *p)]. *)
Definition join2 (path b : string) : string :=
  if Py.startswith b sep then b
  else if (Py.falsy path || Py.endswith path sep)%bool then path +:+ b
  else path +:+ sep +:+ b.

Definition join (a : string) (p : list string) : string :=
  fold_left join2 p a.

Definition nonempty (s : string) : bool := negb (Py.falsy s).

(** The loop body of [normpath]: [new_comps] is the list built so far. *)
Definition norm_step (initial_slashes : nat)
    (new_comps : list string) (comp : string) : list string :=
  if (String.eqb comp "" || String.eqb comp ".")%bool then new_comps
  else if (negb (String.eqb comp "..")
           || ((initial_slashes =? 0)%nat
               && match new_comps with [] => true | _ => false end)
           || match last new_comps with
              | Some c => String.eqb c ".."
              | None => false
              end)%bool
  then new_comps ++ [comp]
  else removelast new_comps.

(** The variable [initial_slashes] of [normpath]: POSIX allows one or two
    initial slashes and treats three or more as one. *)
Definition initial_slashes_of (path : string) : nat :=
  if Py.startswith path "/" then
    if (Py.startswith path "//" && negb (Py.startswith path "///"))%bool
    then 2%nat else 1%nat
  else 0%nat.

Definition normpath (path : string) : string :=
  if Py.falsy path then "." else
  let initial_slashes := initial_slashes_of path in
  let comps := Py.split "/" path in
  let new_comps := fold_left (norm_step initial_slashes) comps [] in
  let p := Py.join "/" new_comps in
  let p := Py.join "" (repeat "/" initial_slashes) +:+ p in
  if Py.falsy p then "." else p.

(** [abspath(path)] with [cwd] the result of [os.getcwd()]. *)
Definition abspath (cwd path : string) : string :=
  normpath (if isabs path then path else join cwd [path]).

(** [commonprefix] of two lists of components. *)
Fixpoint commonprefix (l1 l2 : list string) : list string :=
  match l1, l2 with
  | a :: t1, b :: t2 =>
      if String.eqb a b then a :: commonprefix t1 t2 else []
  | _, _ => []
  end.

(** [relpath(path, start)]; [None] is the [ValueError] raised for an
    empty [path]. *)
Definition relpath (cwd path start : string) : option string :=
  if Py.falsy path then None else
  let start_list := List.filter nonempty (Py.split "/" (abspath cwd start)) in
  let path_list := List.filter nonempty (Py.split "/" (abspath cwd path)) in
  let i := length (commonprefix start_list path_list) in
  let rel_list :=
    repeat pardir (length start_list - i) ++ drop i path_list in
  match rel_list with
  | [] => Some curdir
  | a :: p => Some (join a p)
  end.

(** [dirname(p)] *)
Definition dirname (p : string) : string :=
  let comps := Py.split_chars "/" (Py.chars p) in
  let head := Py.str (concat (map (fun c => c ++ ["/"%char]) (removelast comps))) in
  if (nonempty head && negb (forallb (Ascii.eqb "/") (Py.chars head)))%bool
  then Py.str (Py.rstrip_chars ["/"%char] (Py.chars head))
  else head.

End PosixPath.

(** ** The environment of a run

    Everything [run] obtains from outside the program is a field of
    [World]: the [urllib.parse] functions, the HTTP session, the Selenium
    driver, the HTML parser and serialiser of [bs4], the codecs, the free
    space reported by [shutil.disk_usage], the working directory and the files
    already on disk.  [None] stands for the exception the call raises. *)

Record ParseResult := {
  scheme : string;
  netloc : string;
  path : string
}.

(** What [_fetch_page_with_requests] returns on success: [response.content],
    [response.encoding] and the Content-Type header (an empty string when
    the header is absent). *)
Record Response := {
  content : string;
  encoding : option string;
  content_type : string
}.

(** A tag of the parsed document with its attribute dictionary. *)
Record Tag := {
  tag_name : string;
  attrs : list (string * string)
}.

Inductive DriverInit := InitOk | InitWebDriverException | InitException.

Inductive DriverGet :=
| PageSource (bytes : string)
| GetTimeout
| GetWebDriverException.

Record World := {
  urlparse : string -> option ParseResult;
  urljoin : string -> string -> option string;
  unquote : string -> string;
  http_get : string -> option Response;
  SELENIUM_AVAILABLE : bool;
  driver_init : DriverInit;
  driver_get : string -> DriverGet;
  soup_parse : string -> list Tag;
  soup_str : list Tag -> string;
  (** [bytes.decode(encoding, errors)] with arguments encoding, errors, bytes *)
  decode : string -> string -> string -> option string;
  (** free bytes reported for a directory, given the files written so far *)
  disk_usage : string -> gmap string string -> option Z;
  getcwd : string;
  initial_files : gmap string string
}.

(** The arguments of [ClonerWorker.__init__] that [run] reads. *)
Record Config := {
  base_url : string;
  dest_path : string;
  clone_type : string;
  want_selenium : bool;
  max_depth : Z
}.

(** ** Signals and worker state *)

Inductive exn := TypeError | ValueError | LookupError | OSError.

(** The texts passed to [log_message], one constructor per call site. *)
Inductive LogMsg :=
| LogStarting (url dest : string)
| LogCloneType (ty : string) (depth : Z)
| LogInitSelenium
| LogSeleniumInitialized
| LogSeleniumInitFailed
| LogSeleniumGeneralError
| LogFetchingSelenium (url : string)
| LogSeleniumTimeout (url : string)
| LogSeleniumError (url : string)
| LogFetchingRequests (url : string)
| LogFailedRequests (url : string)
| LogProcessing (url : string) (depth : Z)
| LogSeleniumFetchFailed (url : string)
| LogLowDiskSpace (free : Z)
| LogDiskCheckFailed (e : exn)
| LogPathError (file : string)
| LogSavedAsset (file : string)
| LogSavedHTML (file : string) (queued : Z)
| LogSavedResource (file : string)
| LogSinglePageComplete
| LogWorkerError (e : exn)
| LogTraceback
| LogFinished (status : string).

(** The dictionary passed to [clone_finished]; the size is kept in bytes
    and the duration is left out. *)
Record Report := {
  report_base_url : string;
  report_destination : string;
  report_files_downloaded : Z;
  report_total_size_bytes : Z;
  report_status : string
}.

(** The signals of the worker.  [progress_updated] and [status_updated]
    carry floating-point values and are left out. *)
Inductive Signal :=
| log_message (m : LogMsg)
| file_saved (file : string)
| page_content_downloaded (url html : string)
| clone_finished (r : Report).

Definition Task : Type := string * Z * string.

(** The fields of the worker object, the two counters local to [run]
    ([initial_queue_size], [found_new_links_on_page]), the files on disk and
    the signals emitted so far (oldest first).  [enqueued] is a ghost field:
    every tuple ever appended to [url_queue], in order. *)
Record State := {
  visited_urls : gset string;
  files_downloaded : Z;
  total_size_bytes : Z;
  stop_requested : bool;
  url_queue : list Task;
  selenium_driver : bool;
  use_selenium : bool;
  initial_queue_size : Z;
  found_new_links_on_page : Z;
  files : gmap string string;
  signals : list Signal;
  enqueued : list Task
}.

Definition with_visited_urls v (s : State) : State :=
  {| visited_urls := v; files_downloaded := files_downloaded s;
     total_size_bytes := total_size_bytes s; stop_requested := stop_requested s;
     url_queue := url_queue s; selenium_driver := selenium_driver s;
     use_selenium := use_selenium s; initial_queue_size := initial_queue_size s;
     found_new_links_on_page := found_new_links_on_page s; files := files s;
     signals := signals s; enqueued := enqueued s |}.

Definition with_files_downloaded v (s : State) : State :=
  {| visited_urls := visited_urls s; files_downloaded := v;
     total_size_bytes := total_size_bytes s; stop_requested := stop_requested s;
     url_queue := url_queue s; selenium_driver := selenium_driver s;
     use_selenium := use_selenium s; initial_queue_size := initial_queue_size s;
     found_new_links_on_page := found_new_links_on_page s; files := files s;
     signals := signals s; enqueued := enqueued s |}.

Definition with_total_size_bytes v (s : State) : State :=
  {| visited_urls := visited_urls s; files_downloaded := files_downloaded s;
     total_size_bytes := v; stop_requested := stop_requested s;
     url_queue := url_queue s; selenium_driver := selenium_driver s;
     use_selenium := use_selenium s; initial_queue_size := initial_queue_size s;
     found_new_links_on_page := found_new_links_on_page s; files := files s;
     signals := signals s; enqueued := enqueued s |}.

Definition with_stop_requested v (s : State) : State :=
  {| visited_urls := visited_urls s; files_downloaded := files_downloaded s;
     total_size_bytes := total_size_bytes s; stop_requested := v;
     url_queue := url_queue s; selenium_driver := selenium_driver s;
     use_selenium := use_selenium s; initial_queue_size := initial_queue_size s;
     found_new_links_on_page := found_new_links_on_page s; files := files s;
     signals := signals s; enqueued := enqueued s |}.

Definition with_url_queue v (s : State) : State :=
  {| visited_urls := visited_urls s; files_downloaded := files_downloaded s;
     total_size_bytes := total_size_bytes s; stop_requested := stop_requested s;
     url_queue := v; selenium_driver := selenium_driver s;
     use_selenium := use_selenium s; initial_queue_size := initial_queue_size s;
     found_new_links_on_page := found_new_links_on_page s; files := files s;
     signals := signals s; enqueued := enqueued s |}.

Definition with_selenium_driver v (s : State) : State :=
  {| visited_urls := visited_urls s; files_downloaded := files_downloaded s;
     total_size_bytes := total_size_bytes s; stop_requested := stop_requested s;
     url_queue := url_queue s; selenium_driver := v;
     use_selenium := use_selenium s; initial_queue_size := initial_queue_size s;
     found_new_links_on_page := found_new_links_on_page s; files := files s;
     signals := signals s; enqueued := enqueued s |}.

Definition with_use_selenium v (s : State) : State :=
  {| visited_urls := visited_urls s; files_downloaded := files_downloaded s;
     total_size_bytes := total_size_bytes s; stop_requested := stop_requested s;
     url_queue := url_queue s; selenium_driver := selenium_driver s;
     use_selenium := v; initial_queue_size := initial_queue_size s;
     found_new_links_on_page := found_new_links_on_page s; files := files s;
     signals := signals s; enqueued := enqueued s |}.

Definition with_initial_queue_size v (s : State) : State :=
  {| visited_urls := visited_urls s; files_downloaded := files_downloaded s;
     total_size_bytes := total_size_bytes s; stop_requested := stop_requested s;
     url_queue := url_queue s; selenium_driver := selenium_driver s;
     use_selenium := use_selenium s; initial_queue_size := v;
     found_new_links_on_page := found_new_links_on_page s; files := files s;
     signals := signals s; enqueued := enqueued s |}.

Definition with_found_new_links_on_page v (s : State) : State :=
  {| visited_urls := visited_urls s; files_downloaded := files_downloaded s;
     total_size_bytes := total_size_bytes s; stop_requested := stop_requested s;
     url_queue := url_queue s; selenium_driver := selenium_driver s;
     use_selenium := use_selenium s; initial_queue_size := initial_queue_size s;
     found_new_links_on_page := v; files := files s;
     signals := signals s; enqueued := enqueued s |}.

Definition with_files v (s : State) : State :=
  {| visited_urls := visited_urls s; files_downloaded := files_downloaded s;
     total_size_bytes := total_size_bytes s; stop_requested := stop_requested s;
     url_queue := url_queue s; selenium_driver := selenium_driver s;
     use_selenium := use_selenium s; initial_queue_size := initial_queue_size s;
     found_new_links_on_page := found_new_links_on_page s; files := v;
     signals := signals s; enqueued := enqueued s |}.

Definition with_signals v (s : State) : State :=
  {| visited_urls := visited_urls s; files_downloaded := files_downloaded s;
     total_size_bytes := total_size_bytes s; stop_requested := stop_requested s;
     url_queue := url_queue s; selenium_driver := selenium_driver s;
     use_selenium := use_selenium s; initial_queue_size := initial_queue_size s;
     found_new_links_on_page := found_new_links_on_page s; files := files s;
     signals := v; enqueued := enqueued s |}.

Definition with_enqueued v (s : State) : State :=
  {| visited_urls := visited_urls s; files_downloaded := files_downloaded s;
     total_size_bytes := total_size_bytes s; stop_requested := stop_requested s;
     url_queue := url_queue s; selenium_driver := selenium_driver s;
     use_selenium := use_selenium s; initial_queue_size := initial_queue_size s;
     found_new_links_on_page := found_new_links_on_page s; files := files s;
     signals := signals s; enqueued := v |}.

(** ** A state-and-exception monad for the body of [run] *)

Inductive result (A : Type) :=
| Ok (a : A) (s : State)
| Raise (e : exn) (s : State).
Arguments Ok {A} a s.
Arguments Raise {A} e s.

Definition M (A : Type) : Type := State -> result A.

Definition ret {A} (a : A) : M A := fun s => Ok a s.

Definition bind {A B} (m : M A) (k : A -> M B) : M B :=
  fun s => match m s with
           | Ok a s' => k a s'
           | Raise e s' => Raise e s'
           end.

Definition raise {A} (e : exn) : M A := fun s => Raise e s.

Definition gets {A} (f : State -> A) : M A := fun s => Ok (f s) s.

Definition modify (f : State -> State) : M unit := fun s => Ok tt (f s).

(** [try: m  except Exception as e: h e] *)
Definition try_except {A} (m : M A) (h : exn -> M A) : M A :=
  fun s => match m s with
           | Ok a s' => Ok a s'
           | Raise e s' => h e s'
           end.

(** A library call that raises [e] when it fails. *)
Definition or_raise {A} (e : exn) (o : option A) : M A :=
  match o with Some a => ret a | None => raise e end.

Notation "'let*' x ':=' m 'in' k" := (bind m (fun x => k))
  (at level 10, x name, m at level 100, k at level 200).
Notation "m '>>' k" := (bind m (fun _ => k))
  (at level 90, right associativity).

(** [self.sig.emit(...)] *)
Definition emit (x : Signal) : M unit :=
  modify (fun s => with_signals (signals s ++ [x]) s).

(** [self.log_message.emit(text, colour)] *)
Definition log_message_emit (m : LogMsg) : M unit := emit (log_message m).

(** [self.log_message(text, colour)]: a bound signal is not callable, the
    call raises [TypeError] and emits nothing. *)
Definition log_message_call (m : LogMsg) : M unit := raise TypeError.

(** How an iteration of the [while] loop ends. *)
Inductive ctl := Next | Break.

Definition state_of {A} (r : result A) : State :=
  match r with Ok _ s => s | Raise _ s => s end.

(** ** [ClonerWorker] *)

Section Worker.

Variable w : World.
Variable cfg : Config.

Definition get_domain (url : string) : string :=
  match urlparse w url with
  | Some p => netloc p
  | None => "invalid_domain"
  end.

(** The state [__init__] leaves, with the files already on disk. *)
Definition init_state : State :=
  {| visited_urls := ∅; files_downloaded := 0; total_size_bytes := 0;
     stop_requested := false; url_queue := [];
     selenium_driver := false;
     use_selenium := want_selenium cfg && SELENIUM_AVAILABLE w;
     initial_queue_size := 0; found_new_links_on_page := 0;
     files := initial_files w; signals := []; enqueued := [] |}.

(** The result says whether a driver was created (the proxy options of
    the driver are not modelled). *)
Definition _init_selenium_driver : M bool :=
  let* us := gets use_selenium in
  if negb us then ret false else
  log_message_emit LogInitSelenium >>
  match driver_init w with
  | InitOk => log_message_emit LogSeleniumInitialized >> ret true
  | InitWebDriverException =>
      log_message_emit LogSeleniumInitFailed >>
      modify (with_use_selenium false) >> ret false
  | InitException =>
      log_message_emit LogSeleniumGeneralError >>
      modify (with_use_selenium false) >> ret false
  end.

(** [None] is the pair [(None, None)]. *)
Definition _fetch_page_with_selenium (url : string)
    : M (option (string * string)) :=
  let* have := gets selenium_driver in
  let* ok :=
    (if have then ret true else
       let* d := _init_selenium_driver in
       modify (with_selenium_driver d) >> ret d) in
  if negb ok then ret None else
  log_message_emit (LogFetchingSelenium url) >>
  match driver_get w url with
  | PageSource html => ret (Some (html, "utf-8"))
  | GetTimeout => log_message_emit (LogSeleniumTimeout url) >> ret None
  | GetWebDriverException =>
      log_message_emit (LogSeleniumError url) >>
      modify (with_selenium_driver false) >> ret None
  end.

(** [None] is the triple [(None, None, None)]. *)
Definition _fetch_page_with_requests (url : string) : M (option Response) :=
  log_message_emit (LogFetchingRequests url) >>
  match http_get w url with
  | Some r => ret (Some r)
  | None => log_message_emit (LogFailedRequests url) >> ret None
  end.

Definition page_exts : list string := [".html"; ".htm"; ".php"].

Definition asset_exts : list string :=
  [".css"; ".js"; ".png"; ".jpg"; ".jpeg"; ".gif"; ".svg"; ".webp"; ".ico";
   ".json"; ".woff"; ".woff2"; ".ttf"; ".otf"; ".eot";
   ".mp4"; ".webm"; ".ogg"; ".mp3";
   ".pdf"; ".doc"; ".docx"; ".xls"; ".xlsx"; ".ppt"; ".pptx"; ".xml"; ".txt"].

Definition asset_tags : list string :=
  ["img"; "link"; "script"; "source"; "embed"].

Definition tags_to_process : list (string * list string) :=
  [("a", ["href"]); ("link", ["href"]); ("iframe", ["src"]);
   ("embed", ["src"]); ("object", ["data"]);
   ("img", ["src"; "srcset"; "data-src"]); ("script", ["src"]);
   ("source", ["src"]); ("form", ["action"])].

Definition skipped_prefixes : list string :=
  ["data:"; "javascript:"; "mailto:"; "#"; "tel:"].

Definition in_list (x : string) (l : list string) : bool :=
  existsb (String.eqb x) l.

Definition or_utf8 (enc : option string) : string :=
  match enc with
  | Some e => if Py.falsy e then "utf-8" else e
  | None => "utf-8"
  end.

(** The classification of the fetched content (lines 231 to 242). *)
Definition is_html_content (current_url content : string)
    (enc : option string) (content_type_header : string) : bool :=
  if (negb (Py.falsy content_type_header)
      && Py.contains (Py.lower content_type_header) "text/html")%bool
  then true
  else if Py.falsy content_type_header then
    if (existsb (Py.endswith (Py.lower current_url)) page_exts
        || Py.endswith current_url "/")%bool
    then true
    else if negb (Py.falsy content) then
      match decode w (or_utf8 enc) "ignore" (Py.slice_to 1000 content) with
      | Some d =>
          let decoded_sample := Py.lower d in
          (Py.contains decoded_sample "<html"
           || Py.contains decoded_sample "<!doctype html")%bool
      | None => false
      end
    else false
  else false.

(** [[sanitize_filename(s) for s in p.strip('/').split('/') if s]] *)
Definition segments_of (path_from_url : string) : list string :=
  map sanitize_filename
    (List.filter PosixPath.nonempty (Py.split "/" (Py.strip "/" path_from_url))).

Definition is_nil {A} (l : list A) : bool :=
  match l with [] => true | _ => false end.

(** Lines 249 to 268: file name and directory segments of the fetched
    URL. *)
Definition save_name (path_from_url : string) (path_segments : list string)
    (is_html : bool) : string * list string :=
  let '(filename, dir_segments) :=
    if (Py.endswith path_from_url "/" || is_nil path_segments)%bool
    then ("index.html", path_segments)
    else
      let potential_filename := List.last path_segments "" in
      if Py.has_char "." potential_filename
      then (potential_filename, removelast path_segments)
      else if is_html
      then (potential_filename +:+ ".html", removelast path_segments)
      else (potential_filename, removelast path_segments) in
  (if Py.falsy filename
   then (if is_html then "index.html" else "resource")
   else filename,
   dir_segments).

(** Lines 342 to 363: file name and directory segments of a reference. *)
Definition link_name (asset_path_from_url : string)
    (asset_path_segments : list string)
    (link_is_likely_html is_asset_file : bool) : string * list string :=
  let '(asset_filename, dir_segments) :=
    if (Py.endswith asset_path_from_url "/" || is_nil asset_path_segments)%bool
    then ("index.html", asset_path_segments)
    else
      let potential_asset_fname := List.last asset_path_segments "" in
      if Py.has_char "." potential_asset_fname
      then (potential_asset_fname, removelast asset_path_segments)
      else if (link_is_likely_html && negb is_asset_file)%bool
      then (potential_asset_fname +:+ ".html", removelast asset_path_segments)
      else (potential_asset_fname, removelast asset_path_segments) in
  (if Py.falsy asset_filename then "resource_default_name" else asset_filename,
   dir_segments).

(** [base] itself, or [os.path.join(base, *segments)]. *)
Definition dir_under (base : string) (segments : list string) : string :=
  if is_nil segments then base else PosixPath.join base segments.

(** Lines 330 to 336. *)
Definition base_save_path (link_domain : string) : string :=
  if String.eqb link_domain (get_domain (base_url cfg))
  then dest_path cfg
  else PosixPath.join (dest_path cfg) [sanitize_filename link_domain].

(** Line 346. *)
Definition link_is_likely_html (absolute_link : string) : bool :=
  (existsb (Py.endswith (Py.lower absolute_link)) page_exts
   || Py.endswith absolute_link "/")%bool.

(** Lines 321 to 326. *)
Definition is_asset (parsed_path tag : string) : bool :=
  (existsb (Py.endswith (Py.lower parsed_path)) asset_exts
   || in_list tag asset_tags)%bool.

(** Lines 330 to 369: [asset_filename] and [final_asset_local_path] of a
    resolved reference. *)
Definition link_local_path (absolute_link : string) (parsed : ParseResult)
    (is_asset_file : bool) : string * string :=
  let base_save_path_for_link := base_save_path (get_domain absolute_link) in
  let asset_path_from_url := unquote w (path parsed) in
  let asset_path_segments := segments_of asset_path_from_url in
  let '(asset_filename, asset_local_dir_path_segments) :=
    link_name asset_path_from_url asset_path_segments
      (link_is_likely_html absolute_link) is_asset_file in
  let asset_save_dir :=
    dir_under base_save_path_for_link asset_local_dir_path_segments in
  (asset_filename, PosixPath.join asset_save_dir [asset_filename]).

(** Lines 371 to 381: the value computed for the attribute.  On a POSIX
    system [os.sep] is the slash and the final [replace] changes nothing. *)
Definition new_link_value_of
    (asset_filename final_asset_local_path local_file_dir : string)
    : M string :=
  try_except
    (let abs_final_asset_local_path :=
       PosixPath.abspath (getcwd w) final_asset_local_path in
     let abs_local_file_dir := PosixPath.abspath (getcwd w) local_file_dir in
     let* v := or_raise ValueError
                 (PosixPath.relpath (getcwd w) abs_final_asset_local_path
                    abs_local_file_dir) in
     ret (Py.replace v PosixPath.sep "/"))
    (fun e =>
       match e with
       | ValueError =>
           log_message_call (LogPathError final_asset_local_path) >>
           ret ("#RELPATH_ERROR/" +:+ asset_filename)
       | _ => raise e
       end).

(** Lines 311 to 314: the first candidate of a [srcset] value; [None]
    when it is empty. *)
Definition first_srcset_link (original_link_val : string) : option string :=
  let links :=
    map (fun l => hd "" (Py.split " " (Py.strip_ws l)))
        (Py.split "," original_link_val) in
  match links with
  | [] => None
  | l0 :: _ => if Py.falsy l0 then None else Some l0
  end.

Definition file_key (p : string) : string := PosixPath.abspath (getcwd w) p.

(** [open(p, 'wb').write(data)] *)
Definition write_file (p data : string) : M unit :=
  modify (fun s => with_files (<[file_key p := data]> (files s)) s).

(** [not os.path.exists(p) or os.path.getsize(p) == 0] *)
Definition missing_or_empty (p : string) : M bool :=
  let* fs := gets files in
  ret match fs !! file_key p with
      | None => true
      | Some data => Py.falsy data
      end.

(** Lines 408 to 413. *)
Definition should_queue (depth : Z) (link_domain : string) : bool :=
  if (String.eqb (clone_type cfg) "recursive"
      && String.eqb link_domain (get_domain (base_url cfg)))%bool
  then true
  else if (String.eqb (clone_type cfg) "single_page" && (depth =? 0))%bool
  then
    if String.eqb link_domain (get_domain (base_url cfg)) then true else false
  else false.

(** Lines 416 to 419. *)
Definition enqueue (t : Task) : M unit :=
  modify (fun s => with_enqueued (enqueued s ++ [t])
                     (with_url_queue (url_queue s ++ [t]) s)) >>
  modify (fun s => with_visited_urls ({[ t.1.1 ]} ∪ visited_urls s) s).

(** Lines 402 to 421, the two [elif] branches after the asset branch:
    [value] is what [tag[attr_name]] holds so far. *)
Definition queue_or_restore (absolute_link : string) (depth : Z)
    (link_domain base_save_path_for_link : string) (is_asset_file : bool)
    (value : string) : M (option string) :=
  let* visited := gets visited_urls in
  if (bool_decide (absolute_link ∉ visited) && (depth <? max_depth cfg))%bool
  then
    if should_queue depth link_domain then
      enqueue (absolute_link, depth + 1, base_save_path_for_link) >>
      modify (fun s => with_found_new_links_on_page
                         (found_new_links_on_page s + 1) s) >>
      modify (fun s => with_initial_queue_size
                         (initial_queue_size s + 1) s) >>
      ret (Some value)
    else ret (Some value)
  else if (negb (String.eqb link_domain (get_domain (base_url cfg)))
           && negb is_asset_file)%bool
  then ret (Some absolute_link)
  else ret (Some value).

(** The body of the loop over the tags (lines 306 to 421) for one
    attribute value.  The result is the final value of [tag[attr_name]],
    or [None] when the attribute is never assigned. *)
Definition process_link (current_url : string) (depth : Z)
    (local_file_dir tag attr_name original_link_val : string)
    : M (option string) :=
  if (Py.falsy original_link_val
      || existsb (Py.startswith original_link_val) skipped_prefixes)%bool
  then ret None else
  match (if String.eqb attr_name "srcset"
         then first_srcset_link original_link_val
         else Some original_link_val) with
  | None => ret None
  | Some current_link_to_process =>
    let* absolute_link :=
      or_raise ValueError (urljoin w current_url current_link_to_process) in
    let* parsed_absolute_link :=
      or_raise ValueError (urlparse w absolute_link) in
    if negb (in_list (scheme parsed_absolute_link) ["http"; "https"])
    then ret None else
    let is_asset_file := is_asset (path parsed_absolute_link) tag in
    let link_domain := get_domain absolute_link in
    let base_save_path_for_link := base_save_path link_domain in
    let '(asset_filename, final_asset_local_path) :=
      link_local_path absolute_link parsed_absolute_link is_asset_file in
    let* new_link_value :=
      new_link_value_of asset_filename final_asset_local_path local_file_dir in
    let value :=
      if String.eqb attr_name "srcset"
      then Py.replace original_link_val current_link_to_process new_link_value
      else new_link_value in
    if is_asset_file then
      let* fetch := missing_or_empty final_asset_local_path in
      if fetch then
        let* r := _fetch_page_with_requests absolute_link in
        match r with
        | Some resp =>
            if negb (Py.falsy (content resp)) then
              write_file final_asset_local_path (content resp) >>
              modify (fun s => with_files_downloaded (files_downloaded s + 1) s) >>
              modify (fun s => with_total_size_bytes
                                 (total_size_bytes s + Py.len (content resp)) s) >>
              emit (file_saved final_asset_local_path) >>
              log_message_emit (LogSavedAsset final_asset_local_path) >>
              ret (Some value)
            else ret (Some ("#FAILED_DOWNLOAD_" +:+ original_link_val))
        | None => ret (Some ("#FAILED_DOWNLOAD_" +:+ original_link_val))
        end
      else ret (Some value)
    else
      queue_or_restore absolute_link depth link_domain
        base_save_path_for_link is_asset_file value
  end.

Fixpoint get_attr (k : string) (l : list (string * string)) : option string :=
  match l with
  | [] => None
  | (k', v) :: t => if String.eqb k k' then Some v else get_attr k t
  end.

Fixpoint set_attr (k v : string) (l : list (string * string))
    : list (string * string) :=
  match l with
  | [] => [(k, v)]
  | (k', v') :: t =>
      if String.eqb k k' then (k, v) :: t else (k', v') :: set_attr k v t
  end.

(** The value [find_all(name, **{attr: True})] selects a tag by. *)
Definition selected (name attr_name : string) (t : Tag) : option string :=
  if String.eqb (tag_name t) name then get_attr attr_name (attrs t) else None.

(** [for tag in soup.find_all(...)] (lines 303 to 421); the tags are in
    document order and a [break] leaves the rest as it is. *)
Fixpoint for_tags (current_url : string) (depth : Z) (local_file_dir : string)
    (name attr_name : string) (soup : list Tag) : M (list Tag) :=
  match soup with
  | [] => ret []
  | t :: rest =>
      match selected name attr_name t with
      | None =>
          let* rest' := for_tags current_url depth local_file_dir
                          name attr_name rest in
          ret (t :: rest')
      | Some original_link_val =>
          let* stop := gets stop_requested in
          if stop then ret soup else
          let* v := process_link current_url depth local_file_dir
                      name attr_name original_link_val in
          let t' := match v with
                    | Some x => {| tag_name := tag_name t;
                                   attrs := set_attr attr_name x (attrs t) |}
                    | None => t
                    end in
          let* rest' := for_tags current_url depth local_file_dir
                          name attr_name rest in
          ret (t' :: rest')
      end
  end.

(** [for attr_name in attr_names] (line 302). *)
Fixpoint for_attrs (current_url : string) (depth : Z) (local_file_dir : string)
    (name : string) (attr_names : list string) (soup : list Tag)
    : M (list Tag) :=
  match attr_names with
  | [] => ret soup
  | attr_name :: rest =>
      let* soup' := for_tags current_url depth local_file_dir
                      name attr_name soup in
      for_attrs current_url depth local_file_dir name rest soup'
  end.

(** [for tag_name, attr_names in tags_to_process.items()] (lines 299 to
    423). *)
Fixpoint for_items (current_url : string) (depth : Z) (local_file_dir : string)
    (items : list (string * list string)) (soup : list Tag) : M (list Tag) :=
  match items with
  | [] => ret soup
  | (name, attr_names) :: rest =>
      let* soup' := for_attrs current_url depth local_file_dir
                      name attr_names soup in
      let* stop := gets stop_requested in
      if stop then ret soup'
      else for_items current_url depth local_file_dir rest soup'
  end.

(** Lines 212 to 224; [None] is [content is None]. *)
Definition fetch_task (current_url : string) (depth : Z)
    : M (option Response) :=
  let* us := gets use_selenium in
  let use_selenium_for_this_url := (us && (depth =? 0))%bool in
  if use_selenium_for_this_url then
    let* r := _fetch_page_with_selenium current_url in
    match r with
    | Some (String c b, encoding_str) =>
        ret (Some {| content := String c b; encoding := Some encoding_str;
                     content_type := "text/html" |})
    | _ =>
        log_message_call (LogSeleniumFetchFailed current_url) >>
        _fetch_page_with_requests current_url
    end
  else _fetch_page_with_requests current_url.

(** Lines 278 to 285. *)
Definition disk_space_check (content : string) : M ctl :=
  let* n := gets files_downloaded in
  if n mod 10 =? 0 then
    try_except
      (let* fs := gets files in
       let* free :=
         or_raise OSError
           (disk_usage w (PosixPath.dirname (dest_path cfg)) fs) in
       if free <? Py.len content * 2 then
         log_message_call (LogLowDiskSpace free) >>
         modify (with_stop_requested true) >>
         ret Break
       else ret Next)
      (fun e => log_message_call (LogDiskCheckFailed e) >> ret Next)
  else ret Next.

(** Lines 287 to 429. *)
Definition save_html (current_url : string) (depth : Z)
    (local_file_dir local_file_path : string) (resp : Response) : M ctl :=
  let* html_content_str :=
    or_raise LookupError
      (decode w (or_utf8 (encoding resp)) "replace" (content resp)) in
  emit (page_content_downloaded current_url html_content_str) >>
  let soup := soup_parse w html_content_str in
  modify (with_found_new_links_on_page 0) >>
  let* soup' := for_items current_url depth local_file_dir
                  tags_to_process soup in
  let* stop := gets stop_requested in
  if stop then ret Break else
  write_file local_file_path (soup_str w soup') >>
  let* n := gets found_new_links_on_page in
  log_message_emit (LogSavedHTML local_file_path n) >>
  ret Next.

(** Lines 430 to 432. *)
Definition save_resource (local_file_path : string) (resp : Response)
    : M ctl :=
  write_file local_file_path (content resp) >>
  log_message_call (LogSavedResource local_file_path) >>
  ret Next.

(** One iteration of the [while] loop after the task was popped (lines
    207 to 446). *)
Definition process_task (task : Task) : M ctl :=
  let '(current_url, depth, current_save_base_path_for_url) := task in
  log_message_emit (LogProcessing current_url depth) >>
  let* r := fetch_task current_url depth in
  match r with
  | None => ret Next
  | Some resp =>
      let is_html :=
        is_html_content current_url (content resp) (encoding resp)
          (content_type resp) in
      let* parsed_url := or_raise ValueError (urlparse w current_url) in
      let path_from_url := unquote w (path parsed_url) in
      let path_segments := segments_of path_from_url in
      let '(filename_for_current_url, dir_segments) :=
        save_name path_from_url path_segments is_html in
      let local_file_dir :=
        dir_under current_save_base_path_for_url dir_segments in
      let local_file_path :=
        PosixPath.join local_file_dir [filename_for_current_url] in
      let* c := disk_space_check (content resp) in
      match c with
      | Break => ret Break
      | Next =>
          let* c' :=
            (if is_html
             then save_html current_url depth local_file_dir
                    local_file_path resp
             else save_resource local_file_path resp) in
          match c' with
          | Break => ret Break
          | Next =>
              modify (fun s => with_files_downloaded (files_downloaded s + 1) s) >>
              modify (fun s => with_total_size_bytes
                                 (total_size_bytes s + Py.len (content resp)) s) >>
              emit (file_saved local_file_path) >>
              let* found := gets found_new_links_on_page in
              (if (String.eqb (clone_type cfg) "single_page"
                   && (depth =? 0) && (found =? 0))%bool
               then log_message_call LogSinglePageComplete
               else ret tt) >>
              ret Next
          end
      end
  end.

(** [while self.url_queue:] with at most [fuel] iterations; the result
    says whether the loop was left. *)
Fixpoint while_queue (fuel : nat) : M bool :=
  fun s =>
    match url_queue s with
    | [] => Ok true s
    | task :: rest =>
        if stop_requested s then Ok true s else
        match fuel with
        | O => Ok false s
        | S fuel' =>
            match process_task task (with_url_queue rest s) with
            | Ok Next s' => while_queue fuel' s'
            | Ok Break s' => Ok true s'
            | Raise e s' => Raise e s'
            end
        end
    end.

(** The [try] block of [run] (lines 196 to 446). *)
Definition run_try (fuel : nat) : M bool :=
  enqueue (base_url cfg, 0, dest_path cfg) >>
  modify (with_initial_queue_size 1) >>
  while_queue fuel.

(** Line 459 to 461. *)
Definition status_msg_of (s : State) : string :=
  if stop_requested s then "Stopped by user"
  else if ((files_downloaded s =? 0) && is_nil (url_queue s))%bool
  then "Failed or nothing to download"
  else "Completed".

(** The [finally] block of [run] (lines 452 to 470). *)
Definition run_finally : M Report :=
  modify (with_selenium_driver false) >>
  let* status_msg := gets status_msg_of in
  let* n := gets files_downloaded in
  let* b := gets total_size_bytes in
  let report :=
    {| report_base_url := base_url cfg; report_destination := dest_path cfg;
       report_files_downloaded := n; report_total_size_bytes := b;
       report_status := status_msg |} in
  emit (clone_finished report) >>
  log_message_emit (LogFinished status_msg) >>
  ret report.

(** The [except Exception] handler of [run] (lines 448 to 451). *)
Definition run_except (e : exn) : M unit :=
  log_message_emit (LogWorkerError e) >>
  log_message_emit LogTraceback.

(** The state of the worker when the [try] block is left, or when the
    fuel ran out. *)
Definition run_body (fuel : nat) : result bool :=
  (log_message_emit (LogStarting (base_url cfg) (dest_path cfg)) >>
   log_message_emit (LogCloneType (clone_type cfg) (max_depth cfg)) >>
   run_try fuel) init_state.

(** What follows the [try] block: the handler when it raised, then the
    [finally] block.  [None] when the loop was cut short by the fuel. *)
Definition finish (r : result bool) : option (Report * State) :=
  match r with
  | Ok false _ => None
  | Ok true s =>
      match run_finally s with
      | Ok rep s' => Some (rep, s')
      | Raise _ _ => None
      end
  | Raise e s =>
      match (run_except e >> run_finally) s with
      | Ok rep s' => Some (rep, s')
      | Raise _ _ => None
      end
  end.

(** [run]: the report and the final state; [None] when [fuel] iterations
    did not finish the crawl. *)
Definition run (fuel : nat) : option (Report * State) :=
  finish (run_body fuel).

End Worker.

(** ** A concrete environment for the examples

    A small web given by two tables: the responses of the server by URL and
    the tags of each HTML text.  The library functions are instances that
    agree with [urllib.parse] on the URLs of the examples: absolute URLs of
    the form scheme://host/path without query or fragment, which [urljoin]
    returns as they are. *)

Module Demo.

(** The part of [s] before the first [c], and the rest from [c] on. *)
Fixpoint break_at (c : ascii) (s : string) : string * string :=
  match s with
  | EmptyString => (EmptyString, EmptyString)
  | String a t =>
      if Ascii.eqb a c then (EmptyString, s)
      else let '(x, y) := break_at c t in (String a x, y)
  end.

(** scheme://netloc/path *)
Definition parse_url (url : string) : option ParseResult :=
  let '(sch, rest) := break_at ":" url in
  if Py.startswith rest "://" then
    let '(host, p) :=
      break_at "/" (String.substring 3 (String.length rest) rest) in
    Some {| scheme := sch; netloc := host; path := p |}
  else Some {| scheme := ""; netloc := ""; path := url |}.

Definition join_url (base ref : string) : option string := Some ref.

Definition hex_digit (c : ascii) : option nat :=
  let n := nat_of_ascii c in
  if ((48 <=? n) && (n <=? 57))%nat%bool then Some (n - 48)%nat
  else if ((65 <=? n) && (n <=? 70))%nat%bool then Some (n - 55)%nat
  else if ((97 <=? n) && (n <=? 102))%nat%bool then Some (n - 87)%nat
  else None.

(** Percent-decoding; [skip] counts the hex digits still to be dropped. *)
Fixpoint percent_decode (skip : nat) (s : string) : string :=
  match s with
  | EmptyString => EmptyString
  | String c t =>
      match skip with
      | S k => percent_decode k t
      | O =>
          match c, t with
          | "%"%char, String h1 (String h2 _) =>
              match hex_digit h1, hex_digit h2 with
              | Some a, Some b =>
                  String (ascii_of_nat (16 * a + b)) (percent_decode 2 t)
              | _, _ => String c (percent_decode 0 t)
              end
          | _, _ => String c (percent_decode 0 t)
          end
      end
  end.

Fixpoint find_response (url : string) (l : list (string * Response))
    : option Response :=
  match l with
  | [] => None
  | (u, r) :: t => if String.eqb url u then Some r else find_response url t
  end.

Fixpoint find_soup (html : string) (l : list (string * list Tag))
    : list Tag :=
  match l with
  | [] => []
  | (h, tags) :: t => if String.eqb html h then tags else find_soup html t
  end.

Definition attr_str (kv : string * string) : string :=
  " " +:+ kv.1 +:+ "=" +:+ kv.2.

Definition tag_str (t : Tag) : string :=
  "<" +:+ tag_name t +:+ Py.join "" (map attr_str (attrs t)) +:+ ">".

Definition render (soup : list Tag) : string :=
  Py.join "" (map tag_str soup).

Definition used_bytes (fs : gmap string string) : Z :=
  map_fold (fun _ data n => n + Py.len data) 0 fs.

(** A server, a parser table and a disk of [capacity] bytes that holds
    the files written so far; the three Selenium fields say whether the
    library is installed and what the driver does. *)
Definition world (server : list (string * Response))
    (soups : list (string * list Tag)) (capacity : Z)
    (selenium : bool) (init : DriverInit) (get : string -> DriverGet)
    : World :=
  {| urlparse := parse_url;
     urljoin := join_url;
     unquote := percent_decode 0;
     http_get := fun url => find_response url server;
     SELENIUM_AVAILABLE := selenium;
     driver_init := init;
     driver_get := get;
     soup_parse := fun html => find_soup html soups;
     soup_str := render;
     decode := fun _ _ bytes => Some bytes;
     disk_usage := fun _ fs => Some (Z.max 0 (capacity - used_bytes fs));
     getcwd := "/home/user";
     initial_files := ∅ |}.

(** The same without Selenium installed. *)
Definition static_world (server : list (string * Response))
    (soups : list (string * list Tag)) (capacity : Z) : World :=
  world server soups capacity false InitException
    (fun _ => GetWebDriverException).

Definition html (body : string) : Response :=
  {| content := body; encoding := Some "utf-8";
     content_type := "text/html; charset=utf-8" |}.

Definition binary (body : string) : Response :=
  {| content := body; encoding := None; content_type := "image/png" |}.

Definition a (href : string) : Tag :=
  {| tag_name := "a"; attrs := [("href", href)] |}.

Definition img (src : string) : Tag :=
  {| tag_name := "img"; attrs := [("src", src)] |}.

Definition recursive (seed dest : string) (depth : Z) : Config :=
  {| base_url := seed; dest_path := dest; clone_type := "recursive";
     want_selenium := false; max_depth := depth |}.

Definition seed : string := "https://example.com/".

(** A page with an image whose path has two percent-encoded [..]
    segments. *)
Definition traversal_world : World :=
  static_world
    [(seed, html "SEED");
     ("https://example.com/%2e%2e/%2e%2e/evil.png", binary "PNG")]
    [("SEED", [img "https://example.com/%2e%2e/%2e%2e/evil.png"])]
    1000000.

(** A page with a link to a page of another site. *)
Definition external_world : World :=
  static_world
    [(seed, html "SEED"); ("https://other.org/page", html "OTHER")]
    [("SEED", [a "https://other.org/page"])]
    1000000.

(** A page with a link to a page of the same site without extension. *)
Definition about_world : World :=
  static_world
    [(seed, html "SEED"); ("https://example.com/about", html "ABOUT")]
    [("SEED", [a "https://example.com/about"]); ("ABOUT", [a seed])]
    1000000.

Definition nine_images : list string :=
  map (fun n => "https://example.com/i" +:+ n +:+ ".png")
    ["1"; "2"; "3"; "4"; "5"; "6"; "7"; "8"; "9"].

(** A page with nine images and one link, on a disk with 180 free bytes. *)
Definition full_disk_world : World :=
  static_world
    ((seed, html "SEED")
     :: ("https://example.com/next.html", html "NEXT PAGE")
     :: map (fun u => (u, binary "x")) nine_images)
    [("SEED", a "https://example.com/next.html" :: map img nine_images)]
    180.

(** Selenium is installed and the driver fails to start. *)
Definition selenium_world : World :=
  world [(seed, html "SEED")] [("SEED", [])] 1000000
    true InitWebDriverException (fun _ => GetWebDriverException).

Definition selenium_config : Config :=
  {| base_url := seed; dest_path := "/out/site"; clone_type := "recursive";
     want_selenium := true; max_depth := 5 |}.

Definition srcset_value : string :=
  "https://example.com/img/a.png 1x, https://example.com/img/a.png.webp 2x".

(** An image whose first [srcset] candidate is a prefix of the second. *)
Definition srcset_world : World :=
  static_world
    [(seed, html "SEED"); ("https://example.com/img/a.png", binary "PNG")]
    [("SEED", [{| tag_name := "img"; attrs := [("srcset", srcset_value)] |}])]
    1000000.


End Demo.

(** ** Predicates used in the statements *)

(** The characters the claim names, apart from the control characters. *)
Definition forbidden_chars : list ascii :=
  ["<"; ">"; ":"; "034"; "/"; "092"; "|"; "?"; "*"]%char.

Definition allowed (c : ascii) : Prop :=
  (c ∉ forbidden_chars) ∧ (31 < nat_of_ascii c)%nat.

(** A character that the three first statements remove when nothing else
    is around it. *)
Definition blank (c : ascii) : Prop :=
  illegal_char c = true ∨ c = "_"%char ∨ c = " "%char.

(** Two adjacent underscores somewhere in the list. *)
Definition adjacent_underscores (l : list ascii) : Prop :=
  ∃ l1 l2, l = l1 ++ "_"%char :: "_"%char :: l2.

Fixpoint no_uu (l : list ascii) : bool :=
  match l with
  | c :: t =>
      match t with
      | d :: _ => negb (Ascii.eqb c "_" && Ascii.eqb d "_") && no_uu t
      | [] => true
      end
  | [] => true
  end.

(** [P] holds after [m] whenever it holds before, whether [m] returns or
    raises. *)
Definition stable {A} (P : State → Prop) (m : M A) : Prop :=
  ∀ s, P s → P (state_of (m s)).

(** The part of the state the scheduler invariants speak about. *)
Definition crawl_view (s : State) : gset string * list Task * list Task :=
  (visited_urls s, url_queue s, enqueued s).

(** [P] only looks at the part [view] of the state. *)
Definition respects {V} (view : State → V) (P : State → Prop) : Prop :=
  ∀ s s', view s = view s' → P s → P s'.

(** [P] survives the admission of a link found on a page of depth
    [depth]. *)
Definition admits (cfg : Config) (P : State → Prop) (depth : Z) : Prop :=
  ∀ s u b, P s → u ∉ visited_urls s → depth < max_depth cfg →
    P (state_of (enqueue (u, depth + 1, b) s)).

Definition task_url (t : Task) : string := t.1.1.
Definition task_depth (t : Task) : Z := t.1.2.

(** Every URL was enqueued at most once, every enqueued URL is visited, and
    the queue is the part of the trace that is still to be processed. *)
Definition enqueued_once (s : State) : Prop :=
  NoDup (task_url <$> enqueued s)
  ∧ Forall (fun t => task_url t ∈ visited_urls s) (enqueued s)
  ∧ ∃ processed, enqueued s = processed ++ url_queue s.

Definition visited_includes (V : gset string) (s : State) : Prop :=
  V ⊆ visited_urls s.

Definition depth_bounded (cfg : Config) (s : State) : Prop :=
  Forall (fun t => task_depth t ≤ max_depth cfg) (enqueued s).

Definition starts_with_seed (cfg : Config) (s : State) : Prop :=
  ∃ rest, enqueued s = (base_url cfg, 0, dest_path cfg) :: rest.

(** What the processing of a page of depth [d] adds to the state [s0]: the
    tasks [new] at the end of the queue, their URLs in the visited set. *)
Definition extends_by (s0 : State) (d : Z) (new : list Task) (s : State)
    : Prop :=
  enqueued s = enqueued s0 ++ new
  ∧ url_queue s = url_queue s0 ++ new
  ∧ visited_urls s = visited_urls s0 ∪ list_to_set (task_url <$> new)
  ∧ Forall (fun t => (task_url t ∉ visited_urls s0) ∧ task_depth t = d + 1) new.

Definition extends (s0 : State) (d : Z) (s : State) : Prop :=
  ∃ new, extends_by s0 d new s.

(** The configuration of the examples: a recursive clone of the seed into
    /out/site with the default maximum depth. *)
Definition demo_config : Config := Demo.recursive Demo.seed "/out/site" 5.

(** The file the run left at the absolute path [p]. *)
Definition file_at (o : option (Report * State)) (p : string) : option string :=
  match o with
  | Some (_, s) => files s !! p
  | None => None
  end.

(** The paths passed to [file_saved], in order. *)
Definition saved_paths (o : option (Report * State)) : list string :=
  match o with
  | Some (_, s) =>
      omap (fun x => match x with file_saved p => Some p | _ => None end)
        (signals s)
  | None => []
  end.

Definition status_of (o : option (Report * State)) : option string :=
  match o with
  | Some (r, _) => Some (report_status r)
  | None => None
  end.

Definition signals_of (o : option (Report * State)) : list Signal :=
  match o with
  | Some (_, s) => signals s
  | None => []
  end.

Definition tasks_of (o : option (Report * State)) : list Task :=
  match o with
  | Some (_, s) => enqueued s
  | None => []
  end.



(** ** Path components *)




(** ** The effects of an iteration *)

(** The log entries of the Selenium backend. *)
Definition selenium_msg (m : LogMsg) : bool :=
  match m with
  | LogInitSelenium | LogSeleniumInitialized | LogSeleniumInitFailed
  | LogSeleniumGeneralError | LogFetchingSelenium _ | LogSeleniumTimeout _
  | LogSeleniumError _ => true
  | _ => false
  end.

(** The state after the three statements that count a saved file and
    announce it (lines 396 to 398 and 434 to 436). *)
Definition saved_state (p : string) (n : Z) (s : State) : State :=
  state_of
    ((modify (fun s => with_files_downloaded (files_downloaded s + 1) s) >>
      modify (fun s => with_total_size_bytes (total_size_bytes s + n) s) >>
      emit (file_saved p)) s).

(** The state after the four statements that admit a link (lines 416 to
    419). *)
Definition admitted_state (t : Task) (s : State) : State :=
  state_of
    ((enqueue t >>
      modify (fun s => with_found_new_links_on_page
                         (found_new_links_on_page s + 1) s) >>
      modify (fun s => with_initial_queue_size
                         (initial_queue_size s + 1) s)) s).

(** The changes of the worker state that the processing of a task of depth
    [d] is made of, each with what the code has checked before it. *)
Inductive effect (w : World) (cfg : Config) (d : Z) : State → State → Prop :=
| effect_log (m : LogMsg) (s : State) :
    (selenium_msg m = true →
     d = 0 ∧ (use_selenium s = true ∨ selenium_driver s = true)) →
    effect w cfg d s (with_signals (signals s ++ [log_message m]) s)
| effect_page_content (url html : string) (s : State) :
    effect w cfg d s
      (with_signals (signals s ++ [page_content_downloaded url html]) s)
| effect_use_selenium_off (s : State) :
    effect w cfg d s (with_use_selenium false s)
| effect_selenium_driver (b : bool) (s : State) :
    (b = true → use_selenium s = true) →
    effect w cfg d s (with_selenium_driver b s)
| effect_found_reset (s : State) :
    effect w cfg d s (with_found_new_links_on_page 0 s)
| effect_write (p data : string) (s : State) :
    effect w cfg d s (with_files (<[file_key w p := data]> (files s)) s)
| effect_saved (p : string) (n : Z) (s : State) :
    is_Some (files s !! file_key w p) → 0 ≤ n →
    effect w cfg d s (saved_state p n s)
| effect_admit (u : string) (s : State) :
    u ∉ visited_urls s → d < max_depth cfg →
    should_queue w cfg d (get_domain w u) = true →
    effect w cfg d s
      (admitted_state (u, d + 1, base_save_path w cfg (get_domain w u)) s).

(** Whatever [m] does to the state, returning or raising, is a sequence of
    effects. *)
Definition effects {A} (w : World) (cfg : Config) (d : Z) (m : M A) : Prop :=
  ∀ s, rtc (effect w cfg d) s (state_of (m s)).

(** The paths announced by [file_saved], oldest first. *)
Definition saved_files (l : list Signal) : list string :=
  omap (fun x => match x with file_saved p => Some p | _ => None end) l.

(** One iteration of the loop: the first task is popped and processed. *)
Inductive crawl_step (w : World) (cfg : Config) : State → State → Prop :=
| crawl_step_intro (s s' : State) (task : Task) (rest : list Task) :
    url_queue s = task :: rest → stop_requested s = false →
    rtc (effect w cfg (task_depth task)) (with_url_queue rest s) s' →
    crawl_step w cfg s s'.

(** The state in which the loop is entered. *)
Definition entry_state (w : World) (cfg : Config) : State :=
  state_of (run_body w cfg 0).

(** The report that the [finally] block builds in state [s]. *)
Definition report_of (cfg : Config) (s : State) : Report :=
  {| report_base_url := base_url cfg; report_destination := dest_path cfg;
     report_files_downloaded := files_downloaded s;
     report_total_size_bytes := total_size_bytes s;
     report_status := status_msg_of s |}.

(** What the handler logs: nothing, or the error and the traceback. *)
Definition handler_log (r : result bool) : list Signal :=
  match r with
  | Ok _ _ => []
  | Raise e _ => [log_message (LogWorkerError e); log_message LogTraceback]
  end.

(** The counter of downloaded files agrees with the announcements. *)
Definition counted (s : State) : Prop :=
  files_downloaded s = Z.of_nat (length (saved_files (signals s))).

(** Every announced path is a file on disk. *)
Definition saved_on_disk (w : World) (s : State) : Prop :=
  Forall (fun p => is_Some (files s !! file_key w p)) (saved_files (signals s)).

(** A task for a page of the seed's domain, saved under the destination
    root itself. *)
Definition on_seed_domain (w : World) (cfg : Config) (t : Task) : Prop :=
  get_domain w (task_url t) = get_domain w (base_url cfg)
  ∧ t.2 = dest_path cfg.

Definition depths (l : list Task) : list Z := task_depth <$> l.

(** Inside an iteration on a task of depth [d]: the tasks ever enqueued are
    in order of depth and none is deeper than [d + 1], and the queue holds
    the last of them, none shallower than [d]. *)
Definition breadth_first_in (d : Z) (s : State) : Prop :=
  (∃ done, enqueued s = done ++ url_queue s)
  ∧ StronglySorted Z.le (depths (enqueued s))
  ∧ Forall (fun t => task_depth t ≤ d + 1) (enqueued s)
  ∧ Forall (fun t => d ≤ task_depth t) (url_queue s).

(** Between two iterations. *)
Definition breadth_first (s : State) : Prop :=
  match url_queue s with
  | [] => StronglySorted Z.le (depths (enqueued s))
  | t :: _ => breadth_first_in (task_depth t) s
  end.

(** No trace of the Selenium backend. *)
Definition selenium_unused (s : State) : Prop :=
  use_selenium s = false ∧ selenium_driver s = false
  ∧ Forall (fun x => ∀ m, x = log_message m → selenium_msg m = false)
      (signals s).

Definition is_report (x : Signal) : bool :=
  match x with clone_finished _ => true | _ => false end.

(** A name on which [sanitize_filename] has nothing to do: not empty, at
    most 200 characters, none of them in the replaced class, no two
    underscores in a row, and neither an underscore nor a space at either
    end. *)
Definition tidy_name (s : string) : bool :=
  let l := Py.chars s in
  let inner c := negb (existsb (Ascii.eqb c) ["_"; " "]%char) in
  (negb (Py.falsy s)
   && (length l <=? max_len)%nat
   && forallb (fun c => negb (illegal_char c)) l
   && no_uu l
   && match l with c :: _ => inner c | [] => true end
   && match rev l with c :: _ => inner c | [] => true end)%bool.

(** The test of line 309: an empty value, or one of the five prefixes that
    are not followed. *)
Definition skipped (original_link_val : string) : bool :=
  (Py.falsy original_link_val
   || existsb (Py.startswith original_link_val) skipped_prefixes)%bool.

(** Every attribute value that the loops over [items] select in [soup] is
    skipped. *)
Definition inert (items : list (string * list string)) (soup : list Tag)
    : bool :=
  forallb
    (fun t =>
       forallb
         (fun item : string * list string =>
            forallb
              (fun attr_name =>
                 match selected item.1 attr_name t with
                 | Some v => skipped v
                 | None => true
                 end)
              item.2)
         items)
    soup.

(** The log entries of the Selenium backend among the signals. *)
Definition selenium_log (l : list Signal) : list LogMsg :=
  omap (fun x => match x with
                 | log_message m => if selenium_msg m then Some m else None
                 | _ => None
                 end) l.

Definition DEFAULT_USER_AGENT : string :=
  "Mozilla/5.0 (Windows NT 10.0; Win64; x64) AppleWebKit/537.36 (KHTML, like Gecko) Chrome/91.0.4472.124 Safari/537.36".

Definition newline : string := String (ascii_of_nat 10) "".

(** The line boundaries of [str.splitlines] below 256. *)
Definition is_linebreak (c : ascii) : bool :=
  let n := nat_of_ascii c in
  (((10 <=? n) && (n <=? 13)) || ((28 <=? n) && (n <=? 30)) || (n =? 133))%nat%bool.

(** [cur] holds the characters of the current line, last first. *)
Fixpoint splitlines_go (cur : list ascii) (l : list ascii)
    : list (list ascii) :=
  match l with
  | [] => match cur with [] => [] | _ => [rev cur] end
  | c :: t =>
      if (nat_of_ascii c =? 13)%nat then
        match t with
        | d :: t' =>
            if (nat_of_ascii d =? 10)%nat
            then rev cur :: splitlines_go [] t'
            else rev cur :: splitlines_go [] t
        | [] => rev cur :: splitlines_go [] t
        end
      else if is_linebreak c then rev cur :: splitlines_go [] t
      else splitlines_go (c :: cur) t
  end.

(** [text.splitlines()] *)
Definition splitlines (text : string) : list string :=
  map Py.str (splitlines_go [] (Py.chars text)).

(** [line.split(":", 1)]; [None] when there is no colon in [line]. *)
Fixpoint split_colon (line : string) : option (string * string) :=
  match line with
  | EmptyString => None
  | String c t =>
      if Ascii.eqb c ":" then Some (EmptyString, t)
      else match split_colon t with
           | Some (key, value) => Some (String c key, value)
           | None => None
           end
  end.

(** [d.get(k)] is there and not empty. *)
Definition truthy_get (k : string) (d : list (string * string)) : bool :=
  match get_attr k d with
  | Some v => negb (Py.falsy v)
  | None => false
  end.

(** The loop of [get_settings] (lines 530 to 534). *)
Definition parse_header_lines (lines : list string)
    : list (string * string) :=
  fold_left
    (fun headers line =>
       match split_colon line with
       | Some (key, value) =>
           set_attr (Py.strip_ws key) (Py.strip_ws value) headers
       | None => headers
       end)
    lines [].

(** The entry [headers] of [get_settings] for the text of the editor (lines
    530 to 536). *)
Definition get_settings_headers (text : string) : list (string * string) :=
  let headers := parse_header_lines (splitlines text) in
  if negb (truthy_get "User-Agent" headers)
  then set_attr "User-Agent" DEFAULT_USER_AGENT headers
  else headers.

Definition header_line (kv : string * string) : string :=
  kv.1 +:+ ": " +:+ kv.2.

(** The text that [SettingsDialog.__init__] puts into the editor (lines 486
    and 487). *)
Definition header_text (headers : list (string * string)) : string :=
  let header_str := Py.join newline (map header_line headers) in
  if Py.falsy header_str then DEFAULT_USER_AGENT else header_str.

(** Neither end of [s] is white space. *)
Definition stripped (s : string) : bool :=
  (match Py.chars s with c :: _ => negb (Py.is_space c) | [] => true end
   && match rev (Py.chars s) with
      | c :: _ => negb (Py.is_space c)
      | [] => true
      end)%bool.

Definition one_line (s : string) : bool :=
  forallb (fun c => negb (is_linebreak c)) (Py.chars s).

(** A header that the text of the editor can hold. *)
Definition header_ok (kv : string * string) : bool :=
  (negb (Py.has_char ":" kv.1) && stripped kv.1 && stripped kv.2
   && one_line kv.1 && one_line kv.2)%bool.

(** The keys of a dictionary are distinct. *)
Fixpoint distinct_keys (d : list (string * string)) : bool :=
  match d with
  | [] => true
  | (k, _) :: t =>
      (match get_attr k t with None => true | Some _ => false end
       && distinct_keys t)%bool
  end.

(** The dictionary [proxy_config] that [start_cloning] passes to the worker
    (lines 856 to 874). *)
Definition proxy_config (proxy_ip proxy_port : string)
    : list (string * string) :=
  if (negb (Py.falsy proxy_ip) && negb (Py.falsy proxy_port))%bool then
    let proxy_url_for_requests :=
      if Py.contains proxy_ip "://"
      then proxy_ip +:+ ":" +:+ proxy_port
      else "http://" +:+ proxy_ip +:+ ":" +:+ proxy_port in
    set_attr "https" proxy_url_for_requests
      (set_attr "http" proxy_url_for_requests [])
  else [].

Definition get_or_empty (k : string) (d : list (string * string)) : string :=
  match get_attr k d with Some v => v | None => "" end.

(** The proxy that [_init_selenium_driver] gives to Chrome (lines 128 to
    142); [None] when no proxy option is added. *)
Definition selenium_proxy (proxy_settings : list (string * string))
    : option string :=
  let proxy_str :=
    if truthy_get "http" proxy_settings
    then get_or_empty "http" proxy_settings
    else if truthy_get "https" proxy_settings
    then get_or_empty "https" proxy_settings
    else "" in
  if Py.falsy proxy_str then None else
  if negb (existsb (Py.startswith proxy_str)
             ["http://"; "https://"; "socks5://"; "socks4://"])
  then
    if (truthy_get "http" proxy_settings
        && negb (Py.contains (get_or_empty "http" proxy_settings) "://"))%bool
    then Some ("http://" +:+ get_or_empty "http" proxy_settings)
    else if (truthy_get "https" proxy_settings
             && negb (Py.contains (get_or_empty "https" proxy_settings)
                        "://"))%bool
    then Some ("http://" +:+ get_or_empty "https" proxy_settings)
    else Some proxy_str
  else Some proxy_str.

(** The proxy that the session of Requests uses for plain HTTP (line 94). *)
Definition requests_proxy (proxy_settings : list (string * string))
    : option string :=
  if (truthy_get "http" proxy_settings || truthy_get "https" proxy_settings)%bool
  then get_attr "http" proxy_settings
  else None.

(** A path component that [os.path.join] appends: it does not start with
    a slash. *)
Definition relative (x : string) : Prop := Py.startswith x "/" = false.

(** * Properties *)

(** ** Strings and lists of characters *)

Lemma chars_str (l : list ascii) : Py.chars (Py.str l) = l.
Proof. apply list_ascii_of_string_of_list_ascii. Qed.

Lemma str_chars (s : string) : Py.str (Py.chars s) = s.
Proof. apply string_of_list_ascii_of_string. Qed.

Lemma chars_app (a b : string) : Py.chars (a +:+ b) = Py.chars a ++ Py.chars b.
Proof. induction a as [|c a IH]; simpl; [done|]. by rewrite <- IH. Qed.

Lemma length_str (l : list ascii) : String.length (Py.str l) = length l.
Proof. induction l as [|c l IH]; simpl; [done|]. by rewrite IH. Qed.

Lemma lstrip_suffix (set l : list ascii) :
  ∃ k, l = k ++ Py.lstrip_chars set l.
Proof.
  induction l as [|c l [k IH]]; simpl.
  - by exists [].
  - destruct (existsb (Ascii.eqb c) set).
    + exists (c :: k). simpl. by f_equal.
    + by exists [].
Qed.

Lemma rstrip_prefix (set l : list ascii) :
  ∃ k, l = Py.rstrip_chars set l ++ k.
Proof.
  unfold Py.rstrip_chars.
  destruct (lstrip_suffix set (rev l)) as [k Hk].
  exists (rev k).
  rewrite <- (rev_involutive l) at 1. rewrite Hk at 1.
  by rewrite rev_app_distr.
Qed.

Lemma lstrip_all (set l : list ascii) :
  Forall (fun c => existsb (Ascii.eqb c) set = true) l →
  Py.lstrip_chars set l = [].
Proof.
  induction 1 as [|c l Hc _ IH]; simpl; [done|]. by rewrite Hc.
Qed.

(** ** [sanitize_filename] *)

Lemma illegal_char_false (c : ascii) : illegal_char c = false → allowed c.
Proof.
  unfold illegal_char, allowed. intros H.
  apply orb_false_elim in H as [H1 H2]. split.
  - intros Hin. apply list_elem_of_In in Hin.
    assert (existsb (Ascii.eqb c) forbidden_chars = true) as Hex.
    { apply existsb_exists. exists c. split; [done|apply Ascii.eqb_refl]. }
    unfold forbidden_chars in Hex. congruence.
  - apply Nat.leb_gt in H1. lia.
Qed.

Lemma sub_illegal_allowed (l : list ascii) : Forall allowed (sub_illegal l).
Proof.
  unfold sub_illegal. apply Forall_forall. intros c Hc.
  apply list_elem_of_In, in_map_iff in Hc as (d & <- & _).
  destruct (illegal_char d) eqn:E.
  - by apply illegal_char_false.
  - by apply illegal_char_false.
Qed.

Lemma collapse_underscores_sub (P : ascii → Prop) (l : list ascii) :
  Forall P l → Forall P (collapse_underscores l).
Proof.
  induction 1 as [|c t Hc Ht IH]; [constructor|].
  change (collapse_underscores (c :: t)) with
    (match t with
     | d :: _ => if (Ascii.eqb c "_" && Ascii.eqb d "_")%bool
                 then collapse_underscores t else c :: collapse_underscores t
     | [] => [c]
     end).
  destruct t as [|d t']; [by repeat constructor|].
  destruct (Ascii.eqb c "_" && Ascii.eqb d "_")%bool; [done|by constructor].
Qed.

Lemma Forall_app_l {A} (P : A → Prop) (l k : list A) :
  Forall P (l ++ k) → Forall P l.
Proof. intros H. by apply Forall_app in H as [? ?]. Qed.

Lemma Forall_app_r {A} (P : A → Prop) (l k : list A) :
  Forall P (l ++ k) → Forall P k.
Proof. intros H. by apply Forall_app in H as [? ?]. Qed.

Lemma strip_sub (P : ascii → Prop) (set l : list ascii) :
  Forall P l → Forall P (Py.lstrip_chars set (Py.rstrip_chars set l)).
Proof.
  intros H.
  destruct (rstrip_prefix set l) as [k Hk].
  destruct (lstrip_suffix set (Py.rstrip_chars set l)) as [k' Hk'].
  rewrite Hk in H. apply Forall_app_l in H.
  rewrite Hk' in H. by apply Forall_app_r in H.
Qed.

Lemma clean_chars_sub (P : ascii → Prop) (l : list ascii) :
  Forall P (sub_illegal l) → Forall P (clean_chars l).
Proof.
  intros H. unfold clean_chars. by apply strip_sub, collapse_underscores_sub.
Qed.

Lemma no_uu_adjacent (l : list ascii) :
  no_uu l = true → ¬ adjacent_underscores l.
Proof.
  intros H (l1 & l2 & ->). revert H.
  induction l1 as [|c l1 IH].
  - simpl. discriminate.
  - intros H. apply IH. clear IH.
    change (no_uu ((c :: l1) ++ "_"%char :: "_"%char :: l2)) with
      (match l1 ++ "_"%char :: "_"%char :: l2 with
       | d :: _ => negb (Ascii.eqb c "_" && Ascii.eqb d "_")
                   && no_uu (l1 ++ "_"%char :: "_"%char :: l2)
       | [] => true
       end) in H.
    destruct (l1 ++ "_"%char :: "_"%char :: l2) eqn:E.
    + by destruct l1.
    + by apply andb_true_iff in H as [_ H].
Qed.

Lemma collapse_underscores_head (c : ascii) (t : list ascii) :
  ∃ t', collapse_underscores (c :: t) = c :: t'.
Proof.
  revert c. induction t as [|d t IH]; intros c.
  - by exists [].
  - change (collapse_underscores (c :: d :: t)) with
      (if (Ascii.eqb c "_" && Ascii.eqb d "_")%bool
       then collapse_underscores (d :: t)
       else c :: collapse_underscores (d :: t)).
    destruct (Ascii.eqb c "_" && Ascii.eqb d "_")%bool eqn:E.
    + apply andb_true_iff in E as [Ec Ed].
      apply Ascii.eqb_eq in Ec, Ed. subst. apply IH.
    + by eexists.
Qed.

Lemma collapse_underscores_no_uu (l : list ascii) :
  no_uu (collapse_underscores l) = true.
Proof.
  induction l as [|c t IH]; [done|].
  destruct t as [|d t]; [done|].
  change (collapse_underscores (c :: d :: t)) with
    (if (Ascii.eqb c "_" && Ascii.eqb d "_")%bool
     then collapse_underscores (d :: t)
     else c :: collapse_underscores (d :: t)).
  destruct (Ascii.eqb c "_" && Ascii.eqb d "_")%bool eqn:E; [done|].
  destruct (collapse_underscores_head d t) as [t' Ht'].
  rewrite Ht' in IH |- *.
  change (no_uu (c :: d :: t')) with
    (negb (Ascii.eqb c "_" && Ascii.eqb d "_") && no_uu (d :: t')).
  by rewrite E, IH.
Qed.

Lemma adjacent_app_l (l k : list ascii) :
  adjacent_underscores l → adjacent_underscores (l ++ k).
Proof.
  intros (l1 & l2 & ->). exists l1, (l2 ++ k).
  by rewrite <- app_assoc.
Qed.

Lemma adjacent_app_r (l k : list ascii) :
  adjacent_underscores k → adjacent_underscores (l ++ k).
Proof.
  intros (l1 & l2 & ->). exists (l ++ l1), l2.
  by rewrite <- app_assoc.
Qed.

Lemma clean_chars_not_adjacent (l : list ascii) :
  ¬ adjacent_underscores (clean_chars l).
Proof.
  unfold clean_chars. intros H.
  set (l2 := collapse_underscores (sub_illegal l)) in *.
  destruct (rstrip_prefix ["_"; " "]%char l2) as [k Hk].
  destruct (lstrip_suffix ["_"; " "]%char
              (Py.rstrip_chars ["_"; " "]%char l2)) as [k' Hk'].
  apply (no_uu_adjacent l2).
  - apply collapse_underscores_no_uu.
  - rewrite Hk. apply adjacent_app_l. rewrite Hk'. by apply adjacent_app_r.
Qed.

Lemma blank_clean_chars (l : list ascii) :
  Forall blank l → clean_chars l = [].
Proof.
  intros H. unfold clean_chars.
  set (inset := fun c : ascii => existsb (Ascii.eqb c) ["_"; " "]%char = true).
  assert (Forall inset (sub_illegal l)) as H1.
  { unfold sub_illegal. apply Forall_forall. intros c Hc.
    apply list_elem_of_In, in_map_iff in Hc as (d & <- & Hd).
    apply list_elem_of_In in Hd.
    rewrite Forall_forall in H. specialize (H d Hd).
    destruct (illegal_char d) eqn:E; [done|].
    destruct H as [H|[->| ->]]; [congruence|done|done]. }
  apply (collapse_underscores_sub inset) in H1.
  assert (Py.rstrip_chars ["_"; " "]%char
            (collapse_underscores (sub_illegal l)) = []) as ->; [|done].
  unfold Py.rstrip_chars. rewrite lstrip_all; [done|].
  apply Forall_forall. intros c Hc. rewrite Forall_forall in H1. apply H1.
  apply list_elem_of_In. apply list_elem_of_In in Hc. by apply in_rev.
Qed.

(** C10: for every input, [sanitize_filename] returns a non-empty string of at
    most 200 characters, none of which is one of the nine forbidden
    characters or a control character, with no two consecutive underscores;
    when the substitutions and the strip leave nothing, the result is the
    placeholder untitled, and they leave nothing when every character of
    the input is forbidden, a control character, an underscore or a
    space. *)
Theorem sanitize_filename_safe (filename : string) :
  let r := sanitize_filename filename in
  r ≠ "" ∧
  (String.length r ≤ 200)%nat ∧
  Forall allowed (Py.chars r) ∧
  (∀ a b : string, r ≠ a +:+ "__" +:+ b) ∧
  (clean_chars (Py.chars filename) = [] → r = "untitled") ∧
  (Forall blank (Py.chars filename) → clean_chars (Py.chars filename) = []).
Proof.
  intros r. subst r. unfold sanitize_filename, sanitize_chars.
  set (l := Py.chars filename).
  set (l4 := match clean_chars l with
             | [] => Py.chars "untitled"
             | _ => clean_chars l
             end).
  assert (l4 ≠ []) as Hne.
  { subst l4. by destruct (clean_chars l). }
  assert (Forall allowed l4) as Hall.
  { subst l4. destruct (clean_chars l) eqn:E.
    - apply Forall_forall. intros c Hc. apply illegal_char_false.
      repeat (apply elem_of_cons in Hc as [->|Hc]; [done|]).
      by apply elem_of_nil in Hc.
    - rewrite <- E. apply clean_chars_sub, sub_illegal_allowed. }
  assert (¬ adjacent_underscores l4) as Hadj.
  { subst l4. destruct (clean_chars l) eqn:E.
    - apply no_uu_adjacent. reflexivity.
    - rewrite <- E. apply clean_chars_not_adjacent. }
  repeat split.
  - intros H. apply (f_equal Py.chars) in H. rewrite chars_str in H.
    destruct l4; [done|]. discriminate H.
  - rewrite length_str, length_take. unfold max_len. lia.
  - rewrite chars_str. rewrite <- (take_drop max_len l4) in Hall.
    by apply Forall_app_l in Hall.
  - intros a b H. apply (f_equal Py.chars) in H.
    rewrite chars_str, !chars_app in H. apply Hadj.
    rewrite <- (take_drop max_len l4), H.
    apply adjacent_app_l. by exists (Py.chars a), (Py.chars b).
  - intros H. subst l4. by rewrite H.
  - apply blank_clean_chars.
Qed.

(** The theorem at an input made of forbidden characters, underscores and
    spaces only. *)
Lemma sanitize_filename_safe_witness :
  sanitize_filename "<_ :/_>" = "untitled".
Proof.
  destruct (sanitize_filename_safe "<_ :/_>") as (_ & _ & _ & _ & H1 & H2).
  apply H1, H2.
  repeat constructor;
    first [ by left | by (right; left) | by (right; right) ].
Defined.

(** ** Invariants of the monadic code *)

Section Stable.

Context {w : World} {V : Type} (view : State → V).
Variable P : State → Prop.
Hypothesis P_respects : respects view P.

Lemma stable_ret {A} (a : A) : stable P (ret a).
Proof. by intros s H. Qed.

Lemma stable_raise {A} (e : exn) : stable P (@raise A e).
Proof. by intros s H. Qed.

Lemma stable_gets {A} (f : State → A) : stable P (gets f).
Proof. by intros s H. Qed.

Lemma stable_or_raise {A} (e : exn) (o : option A) : stable P (or_raise e o).
Proof. by destruct o; intros s H. Qed.

Lemma stable_bind {A B} (m : M A) (k : A → M B) :
  stable P m → (∀ a, stable P (k a)) → stable P (bind m k).
Proof.
  intros Hm Hk s H. unfold bind. specialize (Hm s H).
  destruct (m s) as [a s'|e s']; simpl in *; [by apply Hk|done].
Qed.

Lemma stable_try_except {A} (m : M A) (h : exn → M A) :
  stable P m → (∀ e, stable P (h e)) → stable P (try_except m h).
Proof.
  intros Hm Hh s H. unfold try_except. specialize (Hm s H).
  destruct (m s) as [a s'|e s']; simpl in *; [done|by apply Hh].
Qed.

Lemma stable_modify (f : State → State) :
  (∀ s, view (f s) = view s) → stable P (modify f).
Proof. intros Hf s H. simpl. by apply (P_respects s). Qed.

Lemma stable_emit (x : Signal) :
  (∀ s l, view (with_signals l s) = view s) → stable P (emit x).
Proof. intros H. by apply stable_modify. Qed.

Lemma stable_log_message_emit (m : LogMsg) :
  (∀ s l, view (with_signals l s) = view s) → stable P (log_message_emit m).
Proof. apply stable_emit. Qed.

Lemma stable_log_message_call (m : LogMsg) : stable P (log_message_call m).
Proof. apply stable_raise. Qed.

End Stable.

Lemma stable_write_file (w : World) (P : State → Prop) (p data : string) :
  respects crawl_view P → stable P (write_file w p data).
Proof. intros H. by apply (stable_modify crawl_view P H). Qed.

(** Splits a goal [stable P m] along the structure of [m]. *)
Ltac stable_step :=
  match goal with
  | |- stable _ (ret _) => apply stable_ret
  | |- stable _ (raise _) => apply stable_raise
  | |- stable _ (gets _) => apply stable_gets
  | |- stable _ (or_raise _ _) => apply stable_or_raise
  | H : respects ?v ?P |- stable ?P (emit _) =>
      by apply (stable_emit v P H)
  | H : respects ?v ?P |- stable ?P (log_message_emit _) =>
      by apply (stable_log_message_emit v P H)
  | |- stable _ (log_message_call _) => apply stable_log_message_call
  | |- stable _ (write_file _ _ _) => apply stable_write_file; assumption
  | H : respects ?v ?P |- stable ?P (modify _) =>
      apply (stable_modify v P H); intros; reflexivity
  | |- stable _ (bind _ _) => apply stable_bind; [|intros ?]
  | |- stable _ (try_except _ _) => apply stable_try_except; [|intros ?]
  | |- stable _ (if ?b then _ else _) => destruct b
  | |- stable _ (match ?x with _ => _ end) => destruct x
  end.

Ltac stable_auto := repeat (stable_step; try assumption).

Section Fetch.

Context (w : World) {V : Type} (view : State → V).
Variable P : State → Prop.
Hypothesis P_respects : respects view P.
Hypothesis view_signals : ∀ s l, view (with_signals l s) = view s.
Hypothesis view_use_selenium : ∀ s b, view (with_use_selenium b s) = view s.
Hypothesis view_selenium_driver :
  ∀ s b, view (with_selenium_driver b s) = view s.

Lemma _init_selenium_driver_stable : stable P (_init_selenium_driver w).
Proof.
  unfold _init_selenium_driver. stable_auto.
  all: by apply (stable_modify view P P_respects).
Qed.

Lemma _fetch_page_with_selenium_stable url :
  stable P (_fetch_page_with_selenium w url).
Proof.
  unfold _fetch_page_with_selenium. stable_auto.
  all: first [ apply _init_selenium_driver_stable
             | by apply (stable_modify view P P_respects) ].
Qed.

Lemma _fetch_page_with_requests_stable url :
  stable P (_fetch_page_with_requests w url).
Proof. unfold _fetch_page_with_requests. stable_auto. Qed.

Lemma fetch_task_stable url depth : stable P (fetch_task w url depth).
Proof.
  unfold fetch_task. stable_auto;
    first [ apply _fetch_page_with_selenium_stable
          | apply _fetch_page_with_requests_stable ].
Qed.

End Fetch.

Section Crawl.

Context (w : World) (cfg : Config).
Variable P : State → Prop.
Hypothesis P_respects : respects crawl_view P.

Lemma disk_space_check_stable content :
  stable P (disk_space_check w cfg content).
Proof. unfold disk_space_check. stable_auto. Qed.

Lemma new_link_value_of_stable name final dir :
  stable P (new_link_value_of w name final dir).
Proof. unfold new_link_value_of. stable_auto. Qed.

Lemma missing_or_empty_stable p : stable P (missing_or_empty w p).
Proof. unfold missing_or_empty. stable_auto. Qed.

Lemma queue_or_restore_stable link depth domain base is_asset_file value :
  admits cfg P depth →
  stable P (queue_or_restore w cfg link depth domain base is_asset_file value).
Proof.
  intros Hadm s H. unfold queue_or_restore, bind, gets.
  destruct (bool_decide (link ∉ visited_urls s)) eqn:Hv; simpl;
    [|by destruct (negb _ && negb _)%bool].
  destruct (depth <? max_depth cfg) eqn:Hd; simpl;
    [|by destruct (negb _ && negb _)%bool].
  destruct (should_queue w cfg depth domain); [|done].
  apply bool_decide_eq_true in Hv. apply Z.ltb_lt in Hd.
  specialize (Hadm s link base H Hv Hd).
  by apply (P_respects (state_of (enqueue (link, depth + 1, base) s))).
Qed.

Lemma process_link_stable url depth dir tag attr_name value :
  admits cfg P depth →
  stable P (process_link w cfg url depth dir tag attr_name value).
Proof.
  intros Hadm. unfold process_link. stable_auto;
    first [ apply new_link_value_of_stable
          | apply missing_or_empty_stable
          | by apply (_fetch_page_with_requests_stable w crawl_view)
          | by apply queue_or_restore_stable ].
Qed.

End Crawl.

Section Loops.

Context (w : World) (cfg : Config).
Variable P : State → Prop.
Hypothesis P_respects : respects crawl_view P.

Lemma for_tags_stable url depth dir name attr_name soup :
  admits cfg P depth →
  stable P (for_tags w cfg url depth dir name attr_name soup).
Proof.
  intros Hadm. induction soup as [|t rest IH]; simpl; [apply stable_ret|].
  stable_auto. by apply process_link_stable.
Qed.

Lemma for_attrs_stable url depth dir name attr_names soup :
  admits cfg P depth →
  stable P (for_attrs w cfg url depth dir name attr_names soup).
Proof.
  intros Hadm. revert soup.
  induction attr_names as [|a rest IH]; intros soup; simpl; [apply stable_ret|].
  stable_auto; [by apply for_tags_stable|apply IH].
Qed.

Lemma for_items_stable url depth dir items soup :
  admits cfg P depth →
  stable P (for_items w cfg url depth dir items soup).
Proof.
  intros Hadm. revert soup.
  induction items as [|[name attr_names] rest IH]; intros soup; simpl;
    [apply stable_ret|].
  stable_auto; [by apply for_attrs_stable|apply IH].
Qed.

Lemma save_html_stable url depth dir file resp :
  admits cfg P depth →
  stable P (save_html w cfg url depth dir file resp).
Proof.
  intros Hadm. unfold save_html. stable_auto. by apply for_items_stable.
Qed.

Lemma save_resource_stable file resp : stable P (save_resource w file resp).
Proof. unfold save_resource. stable_auto. Qed.

Lemma process_task_stable task :
  admits cfg P (task_depth task) →
  stable P (process_task w cfg task).
Proof.
  destruct task as [[url depth] base]. intros Hadm. unfold process_task.
  stable_auto;
    first [ by apply (fetch_task_stable w crawl_view)
          | by apply disk_space_check_stable
          | by apply save_html_stable
          | by apply save_resource_stable ].
Qed.

Hypothesis P_admits : ∀ depth, admits cfg P depth.
Hypothesis P_pop : ∀ s task rest,
  P s → url_queue s = task :: rest → P (with_url_queue rest s).

Lemma while_queue_stable fuel : stable P (while_queue w cfg fuel).
Proof.
  induction fuel as [|fuel IH]; intros s H; simpl.
  - destruct (url_queue s); [done|]. by destruct (stop_requested s).
  - destruct (url_queue s) as [|task rest] eqn:Hq; [done|].
    destruct (stop_requested s); [done|].
    pose proof (process_task_stable task (P_admits _)
                  (with_url_queue rest s) (P_pop _ _ _ H Hq)) as Hs.
    destruct (process_task w cfg task (with_url_queue rest s))
      as [[|] s'|e s']; simpl in *; [by apply IH|done|done].
Qed.

(** The state in which the loop is entered. *)
Lemma run_body_loop :
  ∃ s1, crawl_view s1
        = ({[ base_url cfg ]},
           [(base_url cfg, 0, dest_path cfg)],
           [(base_url cfg, 0, dest_path cfg)])
      ∧ ∀ fuel, run_body w cfg fuel = while_queue w cfg fuel s1.
Proof.
  eexists. split; [|intros fuel; reflexivity].
  unfold crawl_view. simpl. f_equal. f_equal. apply union_empty_r_L.
Qed.

Lemma run_body_stable fuel :
  (∀ s1, crawl_view s1
         = ({[ base_url cfg ]},
            [(base_url cfg, 0, dest_path cfg)],
            [(base_url cfg, 0, dest_path cfg)]) → P s1) →
  P (state_of (run_body w cfg fuel)).
Proof.
  intros H0. destruct run_body_loop as (s1 & Hv & ->).
  by apply while_queue_stable, H0.
Qed.

End Loops.

(** More fuel continues the loop where less fuel stopped. *)
Lemma while_queue_more (w : World) (cfg : Config) (n k : nat) (s : State) :
  while_queue w cfg (n + k)%nat s
  = match while_queue w cfg n s with
    | Ok false s' => while_queue w cfg k s'
    | r => r
    end.
Proof.
  revert s. induction n as [|n IH]; intros s.
  - simpl. destruct (url_queue s) eqn:Hq.
    + destruct k; simpl; by rewrite Hq.
    + destruct (stop_requested s) eqn:Hs; [|done].
      destruct k; simpl; by rewrite Hq, Hs.
  - simpl. destruct (url_queue s) as [|task rest]; [done|].
    destruct (stop_requested s); [done|].
    destruct (process_task w cfg task (with_url_queue rest s))
      as [[|] s'|e s']; [apply IH|done|done].
Qed.

Lemma while_queue_zero (w : World) (cfg : Config) (s : State) :
  state_of (while_queue w cfg 0 s) = s.
Proof.
  simpl. destruct (url_queue s); [done|]. by destruct (stop_requested s).
Qed.

Lemma run_body_more (w : World) (cfg : Config) (n k : nat) :
  run_body w cfg (n + k)%nat
  = match run_body w cfg n with
    | Ok false s' => while_queue w cfg k s'
    | r => r
    end.
Proof.
  destruct (run_body_loop w cfg) as (s1 & _ & Hrun).
  rewrite !Hrun. apply while_queue_more.
Qed.

(** ** The scheduler invariants *)

Lemma crawl_view_inv (s s' : State) :
  crawl_view s = crawl_view s' →
  visited_urls s = visited_urls s' ∧ url_queue s = url_queue s'
  ∧ enqueued s = enqueued s'.
Proof. unfold crawl_view. intros H. by simplify_eq. Qed.

Lemma crawl_view_eq (s : State) V Q E :
  crawl_view s = (V, Q, E) →
  visited_urls s = V ∧ url_queue s = Q ∧ enqueued s = E.
Proof. unfold crawl_view. intros H. by simplify_eq. Qed.

Lemma enqueued_once_respects : respects crawl_view enqueued_once.
Proof.
  intros s s' (Hv & Hq & He)%crawl_view_inv. unfold enqueued_once.
  by rewrite Hv, Hq, He.
Qed.

Lemma enqueued_once_admits cfg depth : admits cfg enqueued_once depth.
Proof.
  intros s u b (Hnd & Hvis & processed & Hq) Hu _. unfold enqueued_once. simpl.
  repeat split.
  - rewrite fmap_app. apply NoDup_app. repeat split; [done| |apply NoDup_singleton].

    intros x Hx Hx'. simpl in Hx'. apply list_elem_of_singleton in Hx'.
    unfold task_url in Hx' at 1. simpl in Hx'. subst x.
    apply list_elem_of_fmap in Hx as (t & -> & Ht).
    rewrite Forall_forall in Hvis. by apply Hu, Hvis.
  - apply Forall_app. split.
    + eapply Forall_impl; [exact Hvis|]. simpl. set_solver.
    + apply Forall_singleton. unfold task_url. simpl. set_solver.
  - exists processed. by rewrite Hq, app_assoc.
Qed.

Lemma enqueued_once_pop s task rest :
  enqueued_once s → url_queue s = task :: rest →
  enqueued_once (with_url_queue rest s).
Proof.
  intros (Hnd & Hvis & processed & Hq) Hs. unfold enqueued_once. simpl.
  repeat split; [done|done|].
  exists (processed ++ [task]). by rewrite <- app_assoc, Hq, Hs.
Qed.

Lemma visited_includes_respects V : respects crawl_view (visited_includes V).
Proof.
  intros s s' (Hv & _ & _)%crawl_view_inv. unfold visited_includes.
  by rewrite Hv.
Qed.

Lemma visited_includes_admits cfg V depth :
  admits cfg (visited_includes V) depth.
Proof. intros s u b H _ _. unfold visited_includes in *. simpl. set_solver. Qed.

Lemma depth_bounded_respects cfg : respects crawl_view (depth_bounded cfg).
Proof.
  intros s s' (_ & _ & He)%crawl_view_inv. unfold depth_bounded.
  by rewrite He.
Qed.

Lemma depth_bounded_admits cfg depth : admits cfg (depth_bounded cfg) depth.
Proof.
  intros s u b H _ Hd. unfold depth_bounded in *. simpl.
  apply Forall_app. split; [done|]. apply Forall_singleton.
  unfold task_depth. simpl. lia.
Qed.

Lemma starts_with_seed_respects cfg : respects crawl_view (starts_with_seed cfg).
Proof.
  intros s s' (_ & _ & He)%crawl_view_inv. unfold starts_with_seed.
  by rewrite He.
Qed.

Lemma starts_with_seed_admits cfg depth :
  admits cfg (starts_with_seed cfg) depth.
Proof.
  intros s u b [rest H] _ _. unfold starts_with_seed. simpl.
  rewrite H. by eexists.
Qed.

Lemma extends_respects s0 d : respects crawl_view (extends s0 d).
Proof.
  intros s s' (Hv & Hq & He)%crawl_view_inv. unfold extends, extends_by.
  by rewrite Hv, Hq, He.
Qed.

Lemma extends_admits cfg s0 d : admits cfg (extends s0 d) d.
Proof.
  intros s u b (new & He & Hq & Hv & Hnew) Hu _.
  exists (new ++ [(u, d + 1, b)]). unfold extends_by. simpl.
  rewrite He, Hq, <- !app_assoc. split; [done|]. split; [done|]. split.
  - rewrite Hv, fmap_app, list_to_set_app_L. simpl. unfold task_url at 2. simpl.
    set_solver.
  - apply Forall_app. split; [done|]. apply Forall_singleton.
    unfold task_url, task_depth. simpl. split; [|done].
    rewrite Hv in Hu. set_solver.
Qed.

Lemma extends_refl s0 d : extends s0 d s0.
Proof.
  exists []. unfold extends_by. rewrite !app_nil_r. simpl.
  repeat split; [set_solver|constructor].
Qed.

(** What one iteration adds, for every state it may start from. *)
Lemma process_task_extends (w : World) (cfg : Config)
    (u : string) (d : Z) (b : string) (s0 : State) :
  extends s0 d (state_of (process_task w cfg (u, d, b) s0)).
Proof.
  apply (process_task_stable w cfg (extends s0 d)).
  - apply extends_respects.
  - apply extends_admits.
  - apply extends_refl.
Qed.

(** C7: the seed URL is visited and enqueued before the first iteration;
    at every point of the run each enqueued URL is in the visited set, no
    URL occurs twice among the tasks ever enqueued, and the queue is the
    unprocessed end of that trace; the visited set only grows with more
    iterations; and the tasks an iteration enqueues have URLs that were not
    visited when it started and are all visited when it ends. *)
Theorem no_url_enqueued_twice (w : World) (cfg : Config) (fuel more : nat) :
  let s := state_of (run_body w cfg fuel) in
  (base_url cfg ∈ visited_urls (state_of (run_body w cfg 0))
   ∧ enqueued (state_of (run_body w cfg 0))
     = [(base_url cfg, 0, dest_path cfg)])
  ∧ NoDup (task_url <$> enqueued s)
  ∧ Forall (fun t => task_url t ∈ visited_urls s) (enqueued s)
  ∧ (∃ processed, enqueued s = processed ++ url_queue s)
  ∧ visited_urls s ⊆ visited_urls (state_of (run_body w cfg (fuel + more)))
  ∧ ∀ (s0 : State) (task : Task),
      ∃ new, let s1 := state_of (process_task w cfg task s0) in
        enqueued s1 = enqueued s0 ++ new
        ∧ url_queue s1 = url_queue s0 ++ new
        ∧ visited_urls s1 = visited_urls s0 ∪ list_to_set (task_url <$> new)
        ∧ Forall (fun t => task_url t ∉ visited_urls s0) new.
Proof.
  intros s.
  assert (enqueued_once s) as (Hnd & Hvis & Hq).
  { apply run_body_stable.
    - apply enqueued_once_respects.
    - intros. apply enqueued_once_admits.
    - apply enqueued_once_pop.
    - intros s1 (Hv & Hq & He)%crawl_view_eq. unfold enqueued_once.
      rewrite Hv, Hq, He. repeat split.
      + apply NoDup_singleton.
      + apply Forall_singleton. unfold task_url. simpl. set_solver.
      + by exists []. }
  destruct (run_body_loop w cfg)
    as (s1 & (Hv1 & Hq1 & He1)%crawl_view_eq & Hrun).
  split; [split|].
  - rewrite Hrun, while_queue_zero, Hv1. set_solver.
  - by rewrite Hrun, while_queue_zero.
  - split; [done|]. split; [done|]. split; [done|]. split.
    + rewrite run_body_more. fold s.
      destruct (run_body w cfg fuel) as [[|] s'|e s'] eqn:E; subst s; simpl;
        [done| |done].
      apply (while_queue_stable w cfg (visited_includes (visited_urls s'))).
      * apply visited_includes_respects.
      * intros. apply visited_includes_admits.
      * by intros.
      * by unfold visited_includes.
    + intros s0 [[u d] b].
      destruct (process_task_extends w cfg u d b s0)
        as (new & He & Hq' & Hv & Hnew).
      exists new. simpl. split; [done|]. split; [done|]. split; [done|].
      eapply Forall_impl; [exact Hnew|]. by intros t [? _].
Qed.

(** C8: the first task ever enqueued is the seed at depth 0; with a
    maximum depth that is not negative, no task ever enqueued is deeper
    than the maximum; and the tasks enqueued while a page of depth [d] is
    processed all have depth [d + 1]. *)
Theorem enqueued_depths (w : World) (cfg : Config)
    (Hmax : 0 ≤ max_depth cfg) (fuel : nat) :
  let s := state_of (run_body w cfg fuel) in
  (∃ rest, enqueued s = (base_url cfg, 0, dest_path cfg) :: rest)
  ∧ Forall (fun t => task_depth t ≤ max_depth cfg) (enqueued s)
  ∧ ∀ (s0 : State) (u : string) (d : Z) (b : string),
      ∃ new, let s1 := state_of (process_task w cfg (u, d, b) s0) in
        enqueued s1 = enqueued s0 ++ new
        ∧ url_queue s1 = url_queue s0 ++ new
        ∧ Forall (fun t => task_depth t = d + 1) new.
Proof.
  intros s. split; [|split].
  - apply (run_body_stable w cfg (starts_with_seed cfg)).
    + apply starts_with_seed_respects.
    + intros. apply starts_with_seed_admits.
    + by intros.
    + intros s1 (_ & _ & He)%crawl_view_eq. by exists [].
  - apply (run_body_stable w cfg (depth_bounded cfg)).
    + apply depth_bounded_respects.
    + intros. apply depth_bounded_admits.
    + by intros.
    + intros s1 (_ & _ & He)%crawl_view_eq. unfold depth_bounded.
      rewrite He. by apply Forall_singleton.
  - intros s0 u d b.
    destruct (process_task_extends w cfg u d b s0) as (new & He & Hq' & Hv & Hnew).
    exists new. simpl. split; [done|]. split; [done|].
    eapply Forall_impl; [exact Hnew|]. by intros t [_ ?].
Qed.

(** The theorem in the run of the example with the page about, for the
    default maximum depth 5. *)
Lemma enqueued_depths_witness :
  0 ≤ max_depth demo_config
  ∧ Forall (fun t => task_depth t ≤ 5)
      (enqueued (state_of (run_body Demo.about_world demo_config 5))).
Proof.
  assert (0 ≤ max_depth demo_config) as H by (simpl; lia).
  split; [exact H|].
  exact (proj1 (proj2 (enqueued_depths Demo.about_world demo_config H 5))).
Defined.

(** ** The code at the inputs where it leaves the specification *)

(** C1: the image URL https://example.com/%2e%2e/%2e%2e/evil.png on the seed
    page is mapped to /out/site/../../evil.png: both decoded [..] segments
    survive [sanitize_filename], and the file is written to /evil.png,
    outside the destination root /out/site. *)
Theorem traversal_escapes_destination_root :
  let o := run Demo.traversal_world demo_config 5 in
  sanitize_filename ".." = ".."
  ∧ saved_paths o = ["/out/site/../../evil.png"; "/out/site/index.html"]
  ∧ PosixPath.abspath "/home/user" "/out/site/../../evil.png" = "/evil.png"
  ∧ file_at o "/evil.png" = Some "PNG"
  ∧ Py.startswith "/evil.png" "/out/site" = false.
Proof. vm_compute. by repeat split. Qed.

(** C2: a link on the seed page to the unvisited page
    https://other.org/page, at depth 0 below the maximum 5, is not queued and
    is saved as the relative path other.org/page, a file that is never
    written, instead of the absolute URL; with the maximum depth 0 the same
    link is restored to the absolute URL. *)
Theorem external_page_link_left_relative :
  let o := run Demo.external_world demo_config 5 in
  let o0 := run Demo.external_world (Demo.recursive Demo.seed "/out/site" 0) 5 in
  file_at o "/out/site/index.html"
    = Some (Demo.render [Demo.a "other.org/page"])
  ∧ tasks_of o = [(Demo.seed, 0, "/out/site")]
  ∧ file_at o "/out/site/other.org/page" = None
  ∧ status_of o = Some "Completed"
  ∧ file_at o0 "/out/site/index.html"
    = Some (Demo.render [Demo.a "https://other.org/page"]).
Proof. vm_compute. by repeat split. Qed.

(** C3: the page https://example.com/about, served as text/html, is saved
    as /out/site/about.html while the link to it on the seed page is
    rewritten to about, a file that does not exist. *)
Theorem extensionless_page_link_mismatch :
  let o := run Demo.about_world demo_config 5 in
  file_at o "/out/site/index.html" = Some (Demo.render [Demo.a "about"])
  ∧ saved_paths o = ["/out/site/index.html"; "/out/site/about.html"]
  ∧ file_at o "/out/site/about" = None
  ∧ file_at o "/out/site/about.html"
    = Some (Demo.render [Demo.a "index.html"]).
Proof. vm_compute. by repeat split. Qed.

(** C5: Selenium is requested and installed, the driver fails to start and
    the seed page is there for the static backend; the explanatory entry is
    logged, then the call of [log_message] raises [TypeError], the seed is
    never fetched with Requests and the run ends without a file. *)
Theorem selenium_failure_aborts_run :
  let o := run Demo.selenium_world Demo.selenium_config 5 in
  http_get Demo.selenium_world Demo.seed = Some (Demo.html "SEED")
  ∧ signals_of o
    = [log_message (LogStarting Demo.seed "/out/site");
       log_message (LogCloneType "recursive" 5);
       log_message (LogProcessing Demo.seed 0);
       log_message LogInitSelenium;
       log_message LogSeleniumInitFailed;
       log_message (LogWorkerError TypeError);
       log_message LogTraceback;
       clone_finished
         {| report_base_url := Demo.seed; report_destination := "/out/site";
            report_files_downloaded := 0; report_total_size_bytes := 0;
            report_status := "Failed or nothing to download" |};
       log_message (LogFinished "Failed or nothing to download")]
  ∧ saved_paths o = []
  ∧ status_of o = Some "Failed or nothing to download".
Proof. vm_compute. by repeat split. Qed.

(** C6: in the [srcset] value
    https://example.com/img/a.png 1x, https://example.com/img/a.png.webp 2x
    the first candidate is a prefix of the second; [str.replace] rewrites
    both, so the second candidate does not stay as it was. *)
Theorem srcset_replace_alters_later_candidate :
  let o := run Demo.srcset_world demo_config 5 in
  first_srcset_link Demo.srcset_value = Some "https://example.com/img/a.png"
  ∧ file_at o "/out/site/index.html"
    = Some (Demo.render
              [{| tag_name := "img";
                  attrs := [("srcset", "img/a.png 1x, img/a.png.webp 2x")] |}])
  ∧ saved_paths o = ["/out/site/img/a.png"; "/out/site/index.html"]
  ∧ Py.contains "img/a.png 1x, img/a.png.webp 2x"
      "https://example.com/img/a.png.webp 2x" = false.
Proof. vm_compute. by repeat split. Qed.

(** ** The disk-space check *)








(** ** The rewritten attribute value *)

Lemma replace_sep_id (v : string) : Py.replace v "/" "/" = v.
Proof.
  unfold Py.replace. simpl.
  induction v as [|c v IH]; [done|].
  simpl. destruct (Ascii.eqb "/" c) eqn:Hc; simpl.
  - apply Ascii.eqb_eq in Hc as <-. by rewrite IH.
  - by rewrite IH.
Qed.

Lemma normpath_nonempty (p : string) : Py.falsy (PosixPath.normpath p) = false.
Proof.
  unfold PosixPath.normpath. destruct (Py.falsy p); [done|].
  match goal with |- Py.falsy (if Py.falsy ?x then _ else _) = _ =>
    destruct x end; done.
Qed.

Lemma relpath_abspath (cwd final dir : string) :
  ∃ v, PosixPath.relpath cwd (PosixPath.abspath cwd final) dir = Some v.
Proof.
  unfold PosixPath.relpath.
  unfold PosixPath.abspath at 1. rewrite normpath_nonempty.
  match goal with |- ∃ v, match ?l with _ => _ end = _ => destruct l end;
    by eexists.
Qed.

Lemma new_link_value_of_relpath (w : World)
    (asset_filename final_asset_local_path local_file_dir : string)
    (s : State) :
  ∃ v,
    PosixPath.relpath (getcwd w)
      (PosixPath.abspath (getcwd w) final_asset_local_path)
      (PosixPath.abspath (getcwd w) local_file_dir) = Some v
    ∧ new_link_value_of w asset_filename final_asset_local_path
        local_file_dir s = Ok v s.
Proof.
  destruct (relpath_abspath (getcwd w) final_asset_local_path
              (PosixPath.abspath (getcwd w) local_file_dir)) as [v Hv].
  exists v. split; [done|].
  unfold new_link_value_of, try_except, bind, or_raise. rewrite Hv. simpl.
  unfold ret. by rewrite replace_sep_id.
Qed.

(** ** [normpath], [abspath] and [relpath] on paths built by [join] *)










Lemma append_cons c (a b : string) : String c a +:+ b = String c (a +:+ b).
Proof. reflexivity. Qed.


Lemma append_assoc (a b c : string) : (a +:+ b) +:+ c = a +:+ b +:+ c.
Proof. induction a as [|x a IH]; [done|]. by rewrite !append_cons, IH. Qed.




































Section Effects.

Context (w : World) (cfg : Config) (d : Z).

Lemma effects_ret {A} (a : A) : effects w cfg d (ret a).
Proof. intros s. apply rtc_refl. Qed.

Lemma effects_raise {A} (e : exn) : effects w cfg d (@raise A e).
Proof. intros s. apply rtc_refl. Qed.

Lemma effects_gets {A} (f : State → A) : effects w cfg d (gets f).
Proof. intros s. apply rtc_refl. Qed.

Lemma effects_or_raise {A} (e : exn) (o : option A) :
  effects w cfg d (or_raise e o).
Proof. destruct o; intros s; apply rtc_refl. Qed.

(** The continuation may use what [m] returned and in which state. *)
Lemma effects_bind_eq {A B} (m : M A) (k : A → M B) :
  effects w cfg d m →
  (∀ s a s', m s = Ok a s' → rtc (effect w cfg d) s' (state_of (k a s'))) →
  effects w cfg d (bind m k).
Proof.
  intros Hm Hk s. unfold bind. specialize (Hm s).
  destruct (m s) as [a s'|e s'] eqn:E; simpl in *; [|done].
  eapply rtc_trans; [exact Hm|]. by eapply Hk.
Qed.

Lemma effects_bind {A B} (m : M A) (k : A → M B) :
  effects w cfg d m → (∀ a, effects w cfg d (k a)) →
  effects w cfg d (bind m k).
Proof. intros Hm Hk. apply effects_bind_eq; [done|]. intros. apply Hk. Qed.

Lemma effects_try_except {A} (m : M A) (h : exn → M A) :
  effects w cfg d m → (∀ e, effects w cfg d (h e)) →
  effects w cfg d (try_except m h).
Proof.
  intros Hm Hh s. unfold try_except. specialize (Hm s).
  destruct (m s) as [a s'|e s']; simpl in *; [done|].
  eapply rtc_trans; [exact Hm|]. apply Hh.
Qed.

(** Nothing follows a call of the signal. *)
Lemma effects_call_bind {A} (m : LogMsg) (k : unit → M A) :
  effects w cfg d (bind (log_message_call m) k).
Proof. intros s. apply rtc_refl. Qed.

Lemma effects_log (m : LogMsg) :
  selenium_msg m = false → effects w cfg d (log_message_emit m).
Proof.
  intros Hm s. apply rtc_once, effect_log. by rewrite Hm.
Qed.

Lemma effects_page_content (url html : string) :
  effects w cfg d (emit (page_content_downloaded url html)).
Proof. intros s. apply rtc_once, effect_page_content. Qed.

Lemma effects_write (p data : string) : effects w cfg d (write_file w p data).
Proof. intros s. apply rtc_once, effect_write. Qed.

Lemma effects_found_reset :
  effects w cfg d (modify (with_found_new_links_on_page 0)).
Proof. intros s. apply rtc_once, effect_found_reset. Qed.

Lemma effects_use_selenium_off :
  effects w cfg d (modify (with_use_selenium false)).
Proof. intros s. apply rtc_once, effect_use_selenium_off. Qed.

(** The three counting statements when the file is there. *)
Lemma effects_saved {A} (p : string) (n : Z) (k : M A) (s : State) :
  is_Some (files s !! file_key w p) → 0 ≤ n →
  effects w cfg d k →
  rtc (effect w cfg d) s
    (state_of
       ((modify (fun s => with_files_downloaded (files_downloaded s + 1) s) >>
         modify (fun s => with_total_size_bytes (total_size_bytes s + n) s) >>
         emit (file_saved p) >> k) s)).
Proof.
  intros Hp Hn Hk.
  eapply rtc_l; [by apply (effect_saved w cfg d p n s)|]. apply Hk.
Qed.

Lemma len_nonneg (x : string) : 0 ≤ Py.len x.
Proof. unfold Py.len. lia. Qed.

Lemma effects_write_saved {A} (p data : string) (k : M A) :
  effects w cfg d k →
  effects w cfg d
    (write_file w p data >>
     modify (fun s => with_files_downloaded (files_downloaded s + 1) s) >>
     modify (fun s => with_total_size_bytes
                        (total_size_bytes s + Py.len data) s) >>
     emit (file_saved p) >> k).
Proof.
  intros Hk s. eapply rtc_l; [apply (effect_write w cfg d p data s)|].
  apply (effects_saved p (Py.len data) k); [|apply len_nonneg|done].
  simpl. rewrite lookup_insert_eq. by eexists.
Qed.

End Effects.
(** Splits a goal [effects w cfg d m] along the structure of [m]. *)
Ltac effects_step :=
  match goal with
  | |- effects _ _ _ (ret _) => apply effects_ret
  | |- effects _ _ _ (raise _) => apply effects_raise
  | |- effects _ _ _ (gets _) => apply effects_gets
  | |- effects _ _ _ (or_raise _ _) => apply effects_or_raise
  | |- effects _ _ _ (log_message_call _) => apply effects_raise
  | |- effects _ _ _ (bind (log_message_call _) _) => apply effects_call_bind
  | |- effects _ _ _ (bind (write_file _ _ _) (fun _ => bind (modify _) _)) =>
      apply effects_write_saved
  | |- effects _ _ _ (log_message_emit _) => apply effects_log; reflexivity
  | |- effects _ _ _ (emit (page_content_downloaded _ _)) =>
      apply effects_page_content
  | |- effects _ _ _ (write_file _ _ _) => apply effects_write
  | |- effects _ _ _ (modify (with_found_new_links_on_page 0)) =>
      apply effects_found_reset
  | |- effects _ _ _ (bind _ _) => apply effects_bind; [|intros ?]
  | |- effects _ _ _ (try_except _ _) => apply effects_try_except; [|intros ?]
  | |- effects _ _ _ (if ?b then _ else _) => destruct b
  | |- effects _ _ _ (match ?x with _ => _ end) => destruct x
  end.

Ltac effects_auto := repeat (effects_step; try assumption).

Section EffectsOfTheCode.

Context (w : World) (cfg : Config) (d : Z).

(** A driver is only created while Selenium is enabled. *)
Lemma _init_selenium_driver_effects (s : State) :
  d = 0 →
  rtc (effect w cfg d) s (state_of (_init_selenium_driver w s))
  ∧ ∀ b s', _init_selenium_driver w s = Ok b s' →
      b = true → use_selenium s' = true.
Proof.
  intros Hd.
  unfold _init_selenium_driver, bind, gets, log_message_emit, emit, modify, ret.
  destruct (use_selenium s) eqn:U; simpl;
    [|split; [apply rtc_refl|by intros ?? [= <- <-]]].
  assert (effect w cfg d s
            (with_signals (signals s ++ [log_message LogInitSelenium]) s))
    as H1 by (apply effect_log; auto).
  destruct (driver_init w); simpl.
  - split.
    + eapply rtc_l; [exact H1|]. apply rtc_once, effect_log. simpl. auto.
    + intros b s' [= <- <-]. done.
  - split; [|by intros ?? [= <- <-]].
    eapply rtc_l; [exact H1|]. eapply rtc_l; [apply effect_log; simpl; auto|].
    apply rtc_once. apply (effect_use_selenium_off w cfg d).
  - split; [|by intros ?? [= <- <-]].
    eapply rtc_l; [exact H1|]. eapply rtc_l; [apply effect_log; simpl; auto|].
    apply rtc_once. apply (effect_use_selenium_off w cfg d).
Qed.

Lemma _fetch_page_with_selenium_effects (url : string) :
  d = 0 → effects w cfg d (_fetch_page_with_selenium w url).
Proof.
  intros Hd0 s. unfold _fetch_page_with_selenium.
  unfold bind at 1. unfold gets at 1.
  assert (∀ s1, selenium_driver s1 = true →
            rtc (effect w cfg d) s1
              (state_of
                 ((log_message_emit (LogFetchingSelenium url) >>
                   match driver_get w url with
                   | PageSource html => ret (Some (html, "utf-8"))
                   | GetTimeout =>
                       log_message_emit (LogSeleniumTimeout url) >> ret None
                   | GetWebDriverException =>
                       log_message_emit (LogSeleniumError url) >>
                       modify (with_selenium_driver false) >> ret None
                   end) s1))) as Hget.
  { intros s1 Hd.
    unfold bind, log_message_emit, emit, modify, ret. simpl.
    eapply rtc_l; [apply effect_log; auto|].
    destruct (driver_get w url); simpl.
    - apply rtc_refl.
    - apply rtc_once, effect_log. simpl. auto.
    - eapply rtc_l; [apply effect_log; simpl; auto|].
      apply rtc_once. by apply (effect_selenium_driver w cfg d false). }
  destruct (selenium_driver s) eqn:Hd.
  - unfold bind at 1. simpl. by apply Hget.
  - unfold bind at 1. unfold bind at 1.
    destruct (_init_selenium_driver_effects s Hd0) as [Hrtc Hb].
    destruct (_init_selenium_driver w s) as [b s1|e s1] eqn:E; simpl in *;
      [|done].
    eapply rtc_trans; [exact Hrtc|].
    specialize (Hb b s1 eq_refl).
    eapply rtc_l; [by apply (effect_selenium_driver w cfg d b s1)|].
    destruct b; simpl; [|apply rtc_refl].
    by apply Hget.
Qed.

Lemma _fetch_page_with_requests_effects (url : string) :
  effects w cfg d (_fetch_page_with_requests w url).
Proof. unfold _fetch_page_with_requests. effects_auto. Qed.

(** Selenium is tried for a task of depth 0 only. *)
Lemma fetch_task_effects (url : string) :
  effects w cfg d (fetch_task w url d).
Proof.
  unfold fetch_task.
  apply effects_bind_eq; [apply effects_gets|]. intros s us s' [= <- <-].
  destruct (use_selenium s && (d =? 0))%bool eqn:E;
    [|apply _fetch_page_with_requests_effects].
  apply andb_prop in E as [_ Hd%Z.eqb_eq].
  apply effects_bind; [by apply _fetch_page_with_selenium_effects|].
  intros r. effects_auto; apply _fetch_page_with_requests_effects.
Qed.

Lemma disk_space_check_effects (content : string) :
  effects w cfg d (disk_space_check w cfg content).
Proof. unfold disk_space_check. effects_auto. Qed.

Lemma new_link_value_of_effects (name final dir : string) :
  effects w cfg d (new_link_value_of w name final dir).
Proof. unfold new_link_value_of. effects_auto. Qed.

Lemma missing_or_empty_effects (p : string) :
  effects w cfg d (missing_or_empty w p).
Proof. unfold missing_or_empty. effects_auto. Qed.

(** The admission of a link of the page that is being processed. *)
Lemma queue_or_restore_effects (link : string) (is_asset_file : bool)
    (value : string) :
  effects w cfg d
    (queue_or_restore w cfg link d (get_domain w link)
       (base_save_path w cfg (get_domain w link)) is_asset_file value).
Proof.
  intros s. unfold queue_or_restore, bind, gets.
  destruct (bool_decide (link ∉ visited_urls s)) eqn:Hv; simpl;
    [|destruct (negb _ && negb _)%bool; apply rtc_refl].
  destruct (d <? max_depth cfg) eqn:Hd; simpl;
    [|destruct (negb _ && negb _)%bool; apply rtc_refl].
  destruct (should_queue w cfg d (get_domain w link)) eqn:Hq; [|apply rtc_refl].
  apply bool_decide_eq_true in Hv. apply Z.ltb_lt in Hd.
  apply rtc_once. by apply (effect_admit w cfg d link s).
Qed.

Lemma process_link_effects (url dir tag attr_name value : string) :
  effects w cfg d (process_link w cfg url d dir tag attr_name value).
Proof.
  unfold process_link. effects_auto;
    first [ apply new_link_value_of_effects
          | apply missing_or_empty_effects
          | apply _fetch_page_with_requests_effects
          | apply queue_or_restore_effects ].
Qed.

Lemma for_tags_effects (url dir name attr_name : string) (soup : list Tag) :
  effects w cfg d (for_tags w cfg url d dir name attr_name soup).
Proof.
  induction soup as [|t rest IH]; simpl; [apply effects_ret|].
  effects_auto. apply process_link_effects.
Qed.

Lemma for_attrs_effects (url dir name : string) (attr_names : list string)
    (soup : list Tag) :
  effects w cfg d (for_attrs w cfg url d dir name attr_names soup).
Proof.
  revert soup.
  induction attr_names as [|a rest IH]; intros soup; simpl;
    [apply effects_ret|].
  effects_auto; [apply for_tags_effects|apply IH].
Qed.

Lemma for_items_effects (url dir : string)
    (items : list (string * list string)) (soup : list Tag) :
  effects w cfg d (for_items w cfg url d dir items soup).
Proof.
  revert soup.
  induction items as [|[name attr_names] rest IH]; intros soup; simpl;
    [apply effects_ret|].
  effects_auto; [apply for_attrs_effects|apply IH].
Qed.

Lemma save_html_effects (url dir file : string) (resp : Response) :
  effects w cfg d (save_html w cfg url d dir file resp).
Proof. unfold save_html. effects_auto. apply for_items_effects. Qed.

Lemma save_resource_effects (file : string) (resp : Response) :
  effects w cfg d (save_resource w file resp).
Proof. unfold save_resource. effects_auto. Qed.

(** When the page is saved its file is there. *)
Lemma save_html_written (url dir file : string) (resp : Response)
    (s s' : State) :
  save_html w cfg url d dir file resp s = Ok Next s' →
  is_Some (files s' !! file_key w file).
Proof.
  intros H.
  unfold save_html, bind, write_file, modify, gets, log_message_emit, emit,
    ret in H.
  repeat case_match; unfold modify in *; simplify_eq. simpl.
  rewrite lookup_insert_eq. by eexists.
Qed.

Lemma save_resource_never_next (file : string) (resp : Response)
    (s s' : State) :
  save_resource w file resp s ≠ Ok Next s'.
Proof. done. Qed.

End EffectsOfTheCode.

(** The effects of one iteration on the task it has popped. *)
Lemma process_task_effects (w : World) (cfg : Config) (task : Task) :
  effects w cfg (task_depth task) (process_task w cfg task).
Proof.
  destruct task as [[url d] base]. unfold task_depth. simpl.
  unfold process_task.
  apply effects_bind; [apply effects_log; reflexivity|]. intros _.
  apply effects_bind; [apply fetch_task_effects|]. intros [resp|];
    [|apply effects_ret].
  apply effects_bind; [apply effects_or_raise|]. intros parsed.
  destruct (save_name _ _ _) as [name dirs].
  apply effects_bind; [apply disk_space_check_effects|]. intros [|];
    [|apply effects_ret].
  apply effects_bind_eq.
  { destruct (is_html_content _ _ _ _ _);
      [apply save_html_effects|apply save_resource_effects]. }
  intros s c s' Hsave. destruct c; [|apply rtc_refl].
  assert (is_Some (files s' !! file_key w
            (PosixPath.join (dir_under base dirs) [name]))) as Hfile.
  { destruct (is_html_content _ _ _ _ _).
    - by eapply save_html_written.
    - by apply save_resource_never_next in Hsave. }
  apply (effects_saved w cfg d _ (Py.len (content resp))); [done| |].
  - apply len_nonneg.
  - effects_auto.
Qed.
(** ** The run as a sequence of iterations *)

Lemma while_queue_steps (w : World) (cfg : Config) (fuel : nat) (s : State) :
  rtc (crawl_step w cfg) s (state_of (while_queue w cfg fuel s)).
Proof.
  revert s. induction fuel as [|fuel IH]; intros s.
  - rewrite while_queue_zero. apply rtc_refl.
  - simpl. destruct (url_queue s) as [|task rest] eqn:Hq; [apply rtc_refl|].
    destruct (stop_requested s) eqn:Hs; [apply rtc_refl|].
    pose proof (process_task_effects w cfg task (with_url_queue rest s)) as He.
    pose proof (crawl_step_intro w cfg s _ task rest Hq Hs He) as Hstep.
    destruct (process_task w cfg task (with_url_queue rest s))
      as [[|] s'|e s']; simpl in *.
    + eapply rtc_l; [exact Hstep|]. apply IH.
    + by apply rtc_once.
    + by apply rtc_once.
Qed.

Lemma run_body_entry (w : World) (cfg : Config) (fuel : nat) :
  run_body w cfg fuel = while_queue w cfg fuel (entry_state w cfg).
Proof. reflexivity. Qed.

Lemma run_body_steps (w : World) (cfg : Config) (fuel : nat) :
  rtc (crawl_step w cfg) (entry_state w cfg) (state_of (run_body w cfg fuel)).
Proof. rewrite run_body_entry. apply while_queue_steps. Qed.

(** An invariant [I] of the loop with the stronger invariant [J d] that
    holds inside an iteration on a task of depth [d]. *)
Lemma crawl_steps_invariant (w : World) (cfg : Config)
    (I : State → Prop) (J : Z → State → Prop) :
  (∀ s task rest, I s → url_queue s = task :: rest →
     stop_requested s = false →
     J (task_depth task) (with_url_queue rest s)) →
  (∀ d s s', effect w cfg d s s' → J d s → J d s') →
  (∀ d s, J d s → I s) →
  ∀ s s', rtc (crawl_step w cfg) s s' → I s → I s'.
Proof.
  intros Hpop Heff Hback s s' Hsteps.
  induction Hsteps as [s|s s1 s' Hstep _ IH]; [done|].
  intros HI. apply IH. destruct Hstep as [s s1 task rest Hq Hs Hrtc].
  apply (Hback (task_depth task)).
  pose proof (Hpop s task rest HI Hq Hs) as HJ.
  clear -Hrtc HJ Heff.
  induction Hrtc as [|x y z Hxy _ IH']; [done|].
  apply IH'. by eapply Heff.
Qed.

(** The same when the invariant does not depend on the queue. *)
Lemma crawl_steps_preserve (w : World) (cfg : Config) (I : State → Prop) :
  (∀ s q, I s → I (with_url_queue q s)) →
  (∀ d s s', effect w cfg d s s' → I s → I s') →
  ∀ s s', rtc (crawl_step w cfg) s s' → I s → I s'.
Proof.
  intros Hq Heff.
  apply (crawl_steps_invariant w cfg I (fun _ => I)); eauto.
Qed.

(** The handler and the [finally] block add their signals to the state in
    which the [try] block was left, drop the driver and change nothing
    else. *)
Lemma finish_inv (cfg : Config) (res : result bool)
    (r : Report) (s : State) :
  finish cfg res = Some (r, s) →
  r = report_of cfg (state_of res)
  ∧ s = with_signals
          (signals (state_of res) ++ handler_log res
           ++ [clone_finished r; log_message (LogFinished (report_status r))])
          (with_selenium_driver false (state_of res)).
Proof.
  destruct res as [[|] s1|e s1]; simpl; [| done |].
  - intros [= <- <-]. split; [done|].
    unfold with_signals, with_selenium_driver. simpl. by rewrite <- app_assoc.
  - intros [= <- <-]. split; [done|].
    unfold with_signals, with_selenium_driver. simpl.
    by rewrite <- !app_assoc.
Qed.

(** A crawl that is not cut short by the fuel gives a report. *)
Lemma finish_is_Some (cfg : Config) (res : result bool) :
  (∀ s, res ≠ Ok false s) → is_Some (finish cfg res).
Proof.
  intros H. destruct res as [[|] s1|e s1]; simpl; [by eexists| |by eexists].
  by destruct (H s1).
Qed.
(** ** Invariants of the run *)

Lemma saved_files_app (l k : list Signal) :
  saved_files (l ++ k) = saved_files l ++ saved_files k.
Proof. apply omap_app. Qed.

Lemma run_body_steps_more (w : World) (cfg : Config) (n k : nat) :
  rtc (crawl_step w cfg) (state_of (run_body w cfg n))
    (state_of (run_body w cfg (n + k))).
Proof.
  rewrite run_body_more.
  destruct (run_body w cfg n) as [[|] s|e s]; simpl;
    [apply rtc_refl|apply while_queue_steps|apply rtc_refl].
Qed.

Lemma effect_counted (w : World) (cfg : Config) (d : Z) (s s' : State) :
  effect w cfg d s s' → counted s → counted s'.
Proof.
  unfold counted.
  destruct 1; simpl; rewrite ?saved_files_app, ?length_app; simpl;
    intros ->; lia.
Qed.

(** X3: The number of files in the report is the number of [file_saved]
    signals: at every point of the run the counter [files_downloaded]
    equals the number of announcements made so far, and the report of a
    finished run carries the number of announcements of the whole run. *)
Theorem files_downloaded_counts_file_saved (w : World) (cfg : Config)
    (fuel : nat) :
  counted (state_of (run_body w cfg fuel))
  ∧ ∀ r s, run w cfg fuel = Some (r, s) →
      report_files_downloaded r
      = Z.of_nat (length (saved_files (signals s))).
Proof.
  assert (counted (state_of (run_body w cfg fuel))) as H.
  { apply (crawl_steps_preserve w cfg counted) with (s := entry_state w cfg).
    - by intros s q.
    - apply effect_counted.
    - apply run_body_steps.
    - reflexivity. }
  split; [done|]. intros r s Hrun.
  apply finish_inv in Hrun as [-> ->]. simpl.
  rewrite !saved_files_app.
  replace (saved_files (handler_log (run_body w cfg fuel))) with (@nil string)
    by by destruct (run_body w cfg fuel).
  simpl. rewrite app_nil_r. exact H.
Qed.

Lemma effect_files (w : World) (cfg : Config) (d : Z) (s s' : State) :
  effect w cfg d s s' → dom (files s) ⊆ dom (files s').
Proof. destruct 1; simpl; set_solver. Qed.

Lemma effect_saved_on_disk (w : World) (cfg : Config) (d : Z) (s s' : State) :
  effect w cfg d s s' → saved_on_disk w s → saved_on_disk w s'.
Proof.
  unfold saved_on_disk.
  destruct 1; simpl; rewrite ?saved_files_app; simpl; rewrite ?app_nil_r;
    try done.
  - intros H. eapply Forall_impl; [exact H|]. intros q Hq. simpl in Hq.
    apply lookup_insert_is_Some.
    destruct (decide (file_key w p = file_key w q)); auto.
  - intros H'. apply Forall_app. split; [done|]. by apply Forall_singleton.
Qed.

(** X4: Files are written and never removed: at every point of the run each
    path announced by [file_saved] is a file on disk, the files present
    before the run are still there, and so is every file that was there
    some iterations earlier. *)
Theorem saved_files_stay_on_disk (w : World) (cfg : Config)
    (fuel more : nat) :
  let s := state_of (run_body w cfg fuel) in
  let s' := state_of (run_body w cfg (fuel + more)) in
  saved_on_disk w s
  ∧ dom (initial_files w) ⊆ dom (files s)
  ∧ dom (files s) ⊆ dom (files s').
Proof.
  simpl. split; [|split].
  - apply (crawl_steps_preserve w cfg (saved_on_disk w))
      with (s := entry_state w cfg).
    + by intros s q.
    + apply effect_saved_on_disk.
    + apply run_body_steps.
    + constructor.
  - apply (crawl_steps_preserve w cfg
             (fun s => dom (initial_files w) ⊆ dom (files s)))
      with (s := entry_state w cfg).
    + by intros s q.
    + intros d s s' He%effect_files. set_solver.
    + apply run_body_steps.
    + done.
  - set (F := dom (files (state_of (run_body w cfg fuel)))).
    apply (crawl_steps_preserve w cfg (fun s => F ⊆ dom (files s)))
      with (s := state_of (run_body w cfg fuel)).
    + by intros s q.
    + intros d s s' He%effect_files. set_solver.
    + apply run_body_steps_more.
    + done.
Qed.

Lemma should_queue_domain (w : World) (cfg : Config) (d : Z) (dom : string) :
  should_queue w cfg d dom = true → dom = get_domain w (base_url cfg).
Proof.
  unfold should_queue. intros H.
  destruct (String.eqb dom (get_domain w (base_url cfg))) eqn:E.
  - by apply String.eqb_eq.
  - rewrite andb_false_r in H. by destruct (_ && _)%bool.
Qed.

Lemma should_queue_single_page (w : World) (cfg : Config) (d : Z)
    (dom : string) :
  clone_type cfg = "single_page" →
  should_queue w cfg d dom = true → d = 0.
Proof.
  unfold should_queue. intros ->. simpl.
  destruct (d =? 0) eqn:E; [intros _; lia|by simpl].
Qed.

Lemma effect_enqueued (w : World) (cfg : Config) (d : Z) (s s' : State) :
  effect w cfg d s s' →
  (enqueued s' = enqueued s ∧ url_queue s' = url_queue s)
  ∨ ∃ u, d < max_depth cfg
         ∧ should_queue w cfg d (get_domain w u) = true
         ∧ let t := (u, d + 1, base_save_path w cfg (get_domain w u)) in
           enqueued s' = enqueued s ++ [t]
           ∧ url_queue s' = url_queue s ++ [t].
Proof.
  destruct 1; simpl; auto. right. by exists u.
Qed.

(** An invariant of the list of the tasks ever enqueued. *)
Lemma enqueued_invariant (w : World) (cfg : Config) (P : Task → Prop) :
  P (base_url cfg, 0, dest_path cfg) →
  (∀ t d u, P t → task_depth t = d → d < max_depth cfg →
     should_queue w cfg d (get_domain w u) = true →
     P (u, d + 1, base_save_path w cfg (get_domain w u))) →
  ∀ fuel, Forall P (enqueued (state_of (run_body w cfg fuel))).
Proof.
  intros Hseed Hadmit fuel.
  set (I := fun s => Forall P (enqueued s)
                     ∧ ∀ t, t ∈ url_queue s → P t).
  set (J := fun d s => Forall P (enqueued s)
                       ∧ (∀ t, t ∈ url_queue s → P t)
                       ∧ ∃ t, P t ∧ task_depth t = d).
  enough (I (state_of (run_body w cfg fuel))) as [H _] by done.
  apply (crawl_steps_invariant w cfg I J) with (s := entry_state w cfg).
  - intros s task rest [He Hq] Hs _. split; [done|]. split.
    + intros t Ht. apply Hq. rewrite Hs. by right.
    + exists task. split; [|done]. apply Hq. rewrite Hs. by left.
  - intros d s s' Heff (He & Hq & t & Ht & Hd).
    unfold J.
    destruct (effect_enqueued _ _ _ _ _ Heff)
      as [[E1 E2]|(u & Hlt & Hsq & E1 & E2)].
    + rewrite E1, E2. split; [done|]. split; [done|]. by exists t.
    + simpl in E1, E2. rewrite E1, E2.
      assert (P (u, d + 1, base_save_path w cfg (get_domain w u))) as Hnew
        by by eapply Hadmit.
      split; [|split].
      * apply Forall_app. split; [done|]. by apply Forall_singleton.
      * intros t' [Ht'|Ht']%elem_of_app; [by apply Hq|].
        by apply list_elem_of_singleton in Ht' as ->.
      * by exists t.
  - intros d s (He & Hq & _). by split.
  - apply run_body_steps.
  - split.
    + by apply Forall_singleton.
    + intros t Ht. simpl in Ht. by apply list_elem_of_singleton in Ht as ->.
Qed.

(** X5: The crawl never leaves the site of the seed: every task that is ever
    put on the queue is for a URL of the seed's domain, and its save base
    is the destination root. *)
Theorem crawl_stays_on_seed_domain (w : World) (cfg : Config) (fuel : nat) :
  Forall (on_seed_domain w cfg) (enqueued (state_of (run_body w cfg fuel))).
Proof.
  apply enqueued_invariant.
  - done.
  - intros t d u _ _ _ Hq. apply should_queue_domain in Hq.
    split; [done|]. simpl. unfold base_save_path.
    by rewrite Hq, String.eqb_refl.
Qed.

(** X7: In a single-page clone the links of the seed page are the only ones
    that are followed: no task is ever enqueued at a depth above 1. *)
Theorem single_page_depth_at_most_one (w : World) (cfg : Config)
    (fuel : nat) :
  clone_type cfg = "single_page" →
  Forall (fun t => task_depth t ≤ 1)
    (enqueued (state_of (run_body w cfg fuel))).
Proof.
  intros Hty. apply enqueued_invariant.
  - unfold task_depth. simpl. lia.
  - intros t d u _ _ _ Hq.
    apply (should_queue_single_page w cfg d _ Hty) in Hq as ->.
    unfold task_depth. simpl. lia.
Qed.

Lemma single_page_depth_at_most_one_witness :
  Forall (fun t => task_depth t ≤ 1)
    (enqueued
       (state_of
          (run_body Demo.about_world
             {| base_url := Demo.seed; dest_path := "/out/site";
                clone_type := "single_page"; want_selenium := false;
                max_depth := 5 |} 5))).
Proof.
  apply single_page_depth_at_most_one. reflexivity.
Defined.

(** X8: With maximum depth 0 (in the settings: single page and its assets) or
    below, no link is ever followed: the seed is the only task of the
    whole run. *)
Theorem depth_zero_queues_nothing (w : World) (cfg : Config) (fuel : nat) :
  max_depth cfg ≤ 0 →
  enqueued (state_of (run_body w cfg fuel))
  = [(base_url cfg, 0, dest_path cfg)].
Proof.
  intros Hmax.
  set (seed := (base_url cfg, 0, dest_path cfg) : Task).
  set (I := fun s => enqueued s = [seed]
                     ∧ Forall (fun t => 0 ≤ task_depth t) (url_queue s)).
  set (J := fun d s => I s ∧ 0 ≤ d).
  enough (I (state_of (run_body w cfg fuel))) as [H _] by done.
  apply (crawl_steps_invariant w cfg I J) with (s := entry_state w cfg).
  - intros s task rest [He Hq] Hs _. rewrite Hs in Hq.
    apply Forall_cons in Hq as [? ?]. by repeat split.
  - intros d s s' Heff [[He Hq] Hd].
    destruct (effect_enqueued _ _ _ _ _ Heff) as [[E1 E2]|(u & Hlt & _)];
      [|lia].
    unfold J, I. by rewrite E1, E2.
  - by intros d s [? _].
  - apply run_body_steps.
  - split; [done|]. by apply Forall_singleton.
Qed.

Lemma depth_zero_queues_nothing_witness :
  enqueued
    (state_of
       (run_body Demo.about_world (Demo.recursive Demo.seed "/out/site" 0) 5))
  = [(Demo.seed, 0, "/out/site")].
Proof.
  apply (depth_zero_queues_nothing Demo.about_world
           (Demo.recursive Demo.seed "/out/site" 0) 5).
  simpl. lia.
Defined.
Lemma depths_app (l k : list Task) : depths (l ++ k) = depths l ++ depths k.
Proof. apply fmap_app. Qed.

Lemma breadth_first_in_back (d : Z) (s : State) :
  breadth_first_in d s → breadth_first s.
Proof.
  intros (Hdone & Hsorted & Hmax & Hmin). unfold breadth_first.
  destruct (url_queue s) as [|t rest] eqn:Hq; [done|].
  unfold breadth_first_in. rewrite Hq.
  apply Forall_cons in Hmin as [Ht _].
  split; [done|]. split; [done|]. split.
  - eapply Forall_impl; [exact Hmax|]. simpl. intros; lia.
  - destruct Hdone as [done Hdone]. rewrite Hdone, depths_app in Hsorted.
    apply StronglySorted_app in Hsorted as (_ & _ & Hsorted).
    simpl in Hsorted. apply StronglySorted_cons in Hsorted as [Hrest _].
    apply Forall_cons. split; [lia|]. unfold depths in Hrest. rewrite Forall_fmap in Hrest. exact Hrest.
Qed.

Lemma breadth_first_in_effect (w : World) (cfg : Config) (d : Z)
    (s s' : State) :
  effect w cfg d s s' → breadth_first_in d s → breadth_first_in d s'.
Proof.
  intros Heff ([done Hdone] & Hsorted & Hmax & Hmin).
  unfold breadth_first_in.
  destruct (effect_enqueued _ _ _ _ _ Heff)
    as [[E1 E2]|(u & _ & _ & E1 & E2)].
  { rewrite E1, E2. split; [by exists done|]. done. }
  simpl in E1, E2. rewrite E1, E2. split; [|split; [|split]].
  - exists done. by rewrite Hdone, app_assoc.
  - rewrite depths_app. apply StronglySorted_app. split; [|split].
    + intros x1 x2 Hx1 Hx2. simpl in Hx2.
      apply list_elem_of_singleton in Hx2 as ->.
      unfold depths in Hx1. apply list_elem_of_fmap in Hx1 as (t & -> & Ht).
      rewrite Forall_forall in Hmax. by apply Hmax.
    + done.
    + simpl. repeat constructor.
  - apply Forall_app. split; [done|]. apply Forall_singleton.
    unfold task_depth. simpl. lia.
  - apply Forall_app. split; [done|]. apply Forall_singleton.
    unfold task_depth. simpl. lia.
Qed.

Lemma breadth_first_pop (s : State) (task : Task) (rest : list Task) :
  breadth_first s → url_queue s = task :: rest →
  breadth_first_in (task_depth task) (with_url_queue rest s).
Proof.
  unfold breadth_first. intros H Hq. rewrite Hq in H.
  destruct H as ([done Hdone] & Hsorted & Hmax & Hmin).
  unfold breadth_first_in. simpl. rewrite Hq in Hdone, Hmin.
  split; [|split; [done|split; [done|]]].
  - exists (done ++ [task]). by rewrite <- app_assoc.
  - by apply Forall_cons in Hmin as [_ ?].
Qed.

(** X6: The crawl is breadth-first: at every point of the run the tasks ever
    put on the queue are in order of depth, never decreasing, and while a
    task of depth [d] is the next one no task deeper than [d + 1] has been
    enqueued. *)
Theorem crawl_is_breadth_first (w : World) (cfg : Config) (fuel : nat) :
  let s := state_of (run_body w cfg fuel) in
  StronglySorted Z.le (depths (enqueued s))
  ∧ ∀ t, head (url_queue s) = Some t →
      Forall (fun t' => task_depth t' ≤ task_depth t + 1) (enqueued s).
Proof.
  simpl.
  assert (breadth_first (state_of (run_body w cfg fuel))) as H.
  { apply (crawl_steps_invariant w cfg breadth_first breadth_first_in)
      with (s := entry_state w cfg).
    - intros s task rest Hs Hq _. by apply breadth_first_pop.
    - apply breadth_first_in_effect.
    - apply breadth_first_in_back.
    - apply run_body_steps.
    - unfold breadth_first, breadth_first_in. simpl.
      split; [by exists []|]. split; [repeat constructor|].
      split; apply Forall_singleton; unfold task_depth; simpl; lia. }
  unfold breadth_first in H.
  destruct (url_queue (state_of (run_body w cfg fuel))) as [|t rest];
    [by split|].
  destruct H as (_ & Hsorted & Hmax & _). split; [done|].
  by intros ? [= <-].
Qed.

Lemma selenium_unused_effect (w : World) (cfg : Config) (d : Z)
    (s s' : State) :
  effect w cfg d s s' → selenium_unused s → selenium_unused s'.
Proof.
  unfold selenium_unused.
  destruct 1 as [m s Hm| | |b s Hb| | | |]; simpl; intros (Hu & Hd & Hs);
    try done.
  - split; [done|]. split; [done|]. apply Forall_app. split; [done|].
    apply Forall_singleton. intros m' [= <-].
    destruct (selenium_msg m); [|done].
    destruct (Hm eq_refl) as [_ [?|?]]; congruence.
  - split; [done|]. split; [done|]. apply Forall_app. split; [done|].
    by apply Forall_singleton.
  - split; [done|]. split; [|done].
    destruct b; [|done]. rewrite Hb in Hu; done.
  - split; [done|]. split; [done|]. apply Forall_app. split; [done|].
    by apply Forall_singleton.
Qed.

(** X10: When the dynamic engine is not requested, or Selenium is not
    installed, the run never creates a driver, never turns the engine on
    and never logs a message of the Selenium backend, up to and including
    the final report. *)
Theorem selenium_unused_when_disabled (w : World) (cfg : Config)
    (fuel : nat) :
  (want_selenium cfg && SELENIUM_AVAILABLE w)%bool = false →
  selenium_unused (state_of (run_body w cfg fuel))
  ∧ ∀ r s, run w cfg fuel = Some (r, s) → selenium_unused s.
Proof.
  intros Hoff.
  assert (selenium_unused (state_of (run_body w cfg fuel))) as H.
  { apply (crawl_steps_preserve w cfg selenium_unused)
      with (s := entry_state w cfg).
    - by intros s q.
    - apply selenium_unused_effect.
    - apply run_body_steps.
    - split; [exact Hoff|]. split; [done|].
      repeat constructor; by intros m [= <-]. }
  split; [done|]. intros r s Hrun.
  apply finish_inv in Hrun as [_ ->].
  destruct H as (Hu & Hd & Hs). split; [done|]. split; [done|]. simpl.
  apply Forall_app. split; [done|]. apply Forall_app. split.
  - destruct (run_body w cfg fuel); simpl; repeat constructor;
      by intros m [= <-].
  - repeat constructor; by intros m [= <-].
Qed.

Lemma selenium_unused_when_disabled_witness :
  selenium_unused (state_of (run_body Demo.about_world demo_config 5))
  ∧ ∀ r s, run Demo.about_world demo_config 5 = Some (r, s) →
      selenium_unused s.
Proof.
  apply selenium_unused_when_disabled. reflexivity.
Defined.

(** ** Termination *)

Lemma effects_queue (w : World) (cfg : Config) (d : Z) (s s' : State) :
  rtc (effect w cfg d) s s' →
  ∃ new, url_queue s' = url_queue s ++ new
         ∧ Forall (fun t => task_depth t = d + 1) new
         ∧ (new ≠ [] → d < max_depth cfg).
Proof.
  induction 1 as [s|s s1 s' Heff _ (new & Hq & Hd & Hlt)].
  - exists []. by rewrite app_nil_r.
  - destruct (effect_enqueued _ _ _ _ _ Heff)
      as [[_ E]|(u & Hu & _ & _ & E)].
    + exists new. by rewrite <- E.
    + simpl in E. exists ((u, d + 1, base_save_path w cfg (get_domain w u)) :: new).
      rewrite Hq, E, <- app_assoc. split; [done|]. split; [|done].
      by apply Forall_cons.
Qed.

(** When the fuel runs out there is a task left and no stop request. *)
Lemma while_queue_unfinished (w : World) (cfg : Config) (fuel : nat)
    (s s' : State) :
  while_queue w cfg fuel s = Ok false s' → url_queue s' ≠ [].
Proof.
  revert s. induction fuel as [|fuel IH]; intros s; simpl.
  - destruct (url_queue s) eqn:Hq; [done|].
    destruct (stop_requested s); [done|]. intros [= <-]. by rewrite Hq.
  - destruct (url_queue s) as [|task rest]; [done|].
    destruct (stop_requested s); [done|].
    destruct (process_task w cfg task (with_url_queue rest s))
      as [[|] s1|e s1]; [apply IH|done|done].
Qed.

(** As many iterations as the queue has tasks process all of them; what
    is left on the queue are their links, one level deeper, and there are
    none when the tasks are at the maximum depth. *)
Lemma while_queue_drain (w : World) (cfg : Config) (L : Z)
    (q1 q2 : list Task) (s s' : State) :
  url_queue s = q1 ++ q2 →
  Forall (fun t => L ≤ task_depth t) q1 →
  while_queue w cfg (length q1) s = Ok false s' →
  ∃ new, url_queue s' = q2 ++ new
         ∧ Forall (fun t => L + 1 ≤ task_depth t) new
         ∧ (max_depth cfg ≤ L → new = []).
Proof.
  revert q2 s. induction q1 as [|task q1 IH]; intros q2 s Hq Hmin.
  - simpl. destruct (url_queue s) eqn:Hq'; [done|].
    destruct (stop_requested s); [done|]. intros [= <-].
    exists []. rewrite app_nil_r, Hq'. by split.
  - simpl. rewrite Hq. simpl.
    destruct (stop_requested s); [done|].
    pose proof (process_task_effects w cfg task
                  (with_url_queue (q1 ++ q2) s)) as He.
    apply effects_queue in He as (new1 & Hq1 & Hd1 & Hlt1). simpl in Hq1.
    apply Forall_cons in Hmin as [Htask Hmin].
    destruct (process_task w cfg task (with_url_queue (q1 ++ q2) s))
      as [[|] s1|e s1]; [|done|done].
    simpl in Hq1. intros Hrun. rewrite <- app_assoc in Hq1.
    destruct (IH (q2 ++ new1) s1 Hq1 Hmin Hrun) as (new & Hq' & Hd & Hnone).
    exists (new1 ++ new). rewrite Hq', <- app_assoc.
    split; [done|]. split.
    + apply Forall_app. split; [|done].
      eapply Forall_impl; [exact Hd1|]. simpl. intros; lia.
    + intros Hmax. rewrite (Hnone Hmax), app_nil_r.
      destruct new1; [done|]. assert (task_depth task < max_depth cfg)
        by by apply Hlt1. lia.
Qed.

(** A queue whose tasks are at most [k] levels above the maximum depth is
    emptied by finitely many iterations. *)
Lemma while_queue_finishes (w : World) (cfg : Config) (k : nat) (s : State) :
  Forall (fun t => max_depth cfg - Z.of_nat k ≤ task_depth t) (url_queue s) →
  ∃ fuel, ∀ s', while_queue w cfg fuel s ≠ Ok false s'.
Proof.
  revert s. induction k as [|k IH]; intros s Hmin.
  - exists (length (url_queue s)). intros s' Hrun.
    destruct (while_queue_drain w cfg (max_depth cfg) (url_queue s) [] s s')
      as (new & Hq & _ & Hnone).
    + by rewrite app_nil_r.
    + eapply Forall_impl; [exact Hmin|]. simpl. intros; lia.
    + done.
    + apply while_queue_unfinished in Hrun. rewrite Hnone in Hq; [done|lia].
  - destruct (while_queue w cfg (length (url_queue s)) s)
      as [[|] s1|e s1] eqn:Hrun.
    + exists (length (url_queue s)). intros s'. by rewrite Hrun.
    + destruct (while_queue_drain w cfg (max_depth cfg - Z.of_nat (S k))
                  (url_queue s) [] s s1) as (new & Hq & Hd & _).
      * by rewrite app_nil_r.
      * done.
      * done.
      * destruct (IH s1) as [fuel Hfuel].
        { rewrite Hq. simpl. eapply Forall_impl; [exact Hd|]. simpl.
          intros; lia. }
        exists (length (url_queue s) + fuel)%nat. intros s'.
        rewrite while_queue_more, Hrun. apply Hfuel.
    + exists (length (url_queue s)). intros s'. by rewrite Hrun.
Qed.

(** X1: Every run ends: for every site and every configuration some number of
    iterations finishes the crawl and gives a report, and iterating longer
    changes neither the report nor the final state. *)
Theorem run_terminates (w : World) (cfg : Config) :
  ∃ fuel r s, ∀ more, run w cfg (fuel + more) = Some (r, s).
Proof.
  destruct (while_queue_finishes w cfg (Z.to_nat (max_depth cfg))
              (entry_state w cfg)) as [fuel Hfuel].
  { apply Forall_singleton. unfold task_depth. simpl. lia. }
  rewrite <- run_body_entry in Hfuel.
  destruct (finish_is_Some cfg (run_body w cfg fuel) Hfuel) as [[r s] Hrs].
  exists fuel, r, s. intros more. unfold run. rewrite run_body_more.
  destruct (run_body w cfg fuel) as [[|] s1|e s1]; [done| |done].
  by destruct (Hfuel s1).
Qed.

Lemma no_report_effect (w : World) (cfg : Config) (d : Z) (s s' : State) :
  effect w cfg d s s' →
  Forall (fun x => is_report x = false) (signals s) →
  Forall (fun x => is_report x = false) (signals s').
Proof.
  destruct 1; simpl; try done; intros Hs; apply Forall_app; split; try done;
    by apply Forall_singleton.
Qed.

(** X2: A finished run reports exactly once: the signals of the run end with
    the report and the closing log entry that repeats its status, no other
    report is emitted before, the report names the seed and the destination
    of the configuration, and the driver is released. *)
Theorem report_emitted_once (w : World) (cfg : Config) (fuel : nat)
    (r : Report) (s : State) :
  run w cfg fuel = Some (r, s) →
  (∃ before,
     signals s
     = before ++ [clone_finished r; log_message (LogFinished (report_status r))]
     ∧ Forall (fun x => is_report x = false) before)
  ∧ report_base_url r = base_url cfg
  ∧ report_destination r = dest_path cfg
  ∧ selenium_driver s = false.
Proof.
  intros Hrun.
  assert (Forall (fun x => is_report x = false)
            (signals (state_of (run_body w cfg fuel)))) as H.
  { apply (crawl_steps_preserve w cfg
             (fun s => Forall (fun x => is_report x = false) (signals s)))
      with (s := entry_state w cfg).
    - by intros s0 q.
    - apply no_report_effect.
    - apply run_body_steps.
    - by repeat constructor. }
  apply finish_inv in Hrun as [Hr ->]. simpl.
  split; [|by rewrite Hr].
  exists (signals (state_of (run_body w cfg fuel))
          ++ handler_log (run_body w cfg fuel)).
  rewrite <- app_assoc. split; [done|].
  apply Forall_app. split; [done|].
  destruct (run_body w cfg fuel); simpl; by repeat constructor.
Qed.

Lemma report_emitted_once_witness :
  ∃ r s,
    run Demo.about_world demo_config 5 = Some (r, s)
    ∧ (∃ before,
         signals s
         = before
           ++ [clone_finished r; log_message (LogFinished (report_status r))]
         ∧ Forall (fun x => is_report x = false) before)
    ∧ report_base_url r = "https://example.com/"
    ∧ selenium_driver s = false.
Proof.
  destruct (run Demo.about_world demo_config 5) as [[r s]|] eqn:Hrun;
    [|by vm_compute in Hrun].
  exists r, s. split; [done|].
  destruct (report_emitted_once Demo.about_world demo_config 5 r s Hrun)
    as (H1 & H2 & _ & H4).
  split; [done|]. split; [|done]. by rewrite H2.
Defined.
(** ** Stop requests, failed fetches and the counters of the progress bar *)

Lemma effect_stop_requested (w : World) (cfg : Config) (d : Z)
    (s s' : State) :
  effect w cfg d s s' → stop_requested s' = stop_requested s.
Proof. by destruct 1. Qed.

Lemma while_queue_stopped (w : World) (cfg : Config) (fuel : nat)
    (s : State) :
  stop_requested s = true → while_queue w cfg fuel s = Ok true s.
Proof.
  intros Hs. destruct fuel; simpl; destruct (url_queue s); by rewrite ?Hs.
Qed.

Lemma while_queue_S (w : World) (cfg : Config) (fuel : nat) (s : State)
    (task : Task) (rest : list Task) :
  url_queue s = task :: rest → stop_requested s = false →
  while_queue w cfg (S fuel) s
  = match process_task w cfg task (with_url_queue rest s) with
    | Ok Next s' => while_queue w cfg fuel s'
    | Ok Break s' => Ok true s'
    | Raise e s' => Raise e s'
    end.
Proof. intros Hq Hs. simpl. by rewrite Hq, Hs. Qed.




(** X12: [run] itself never requests a stop: the flag is clear at every point
    of the run (the assignment after the low disk space message is never
    reached), so unless [stop] is called from outside the status of the
    report is not Stopped by user; it is Failed or nothing to download
    exactly when no file was counted and the queue is empty. *)
Theorem run_never_requests_stop (w : World) (cfg : Config) (fuel : nat) :
  stop_requested (state_of (run_body w cfg fuel)) = false
  ∧ ∀ r s, run w cfg fuel = Some (r, s) →
      report_status r ≠ "Stopped by user"
      ∧ (report_status r = "Failed or nothing to download"
         ↔ report_files_downloaded r = 0 ∧ url_queue s = []).
Proof.
  assert (stop_requested (state_of (run_body w cfg fuel)) = false) as H.
  { apply (crawl_steps_preserve w cfg (fun s => stop_requested s = false))
      with (s := entry_state w cfg).
    - by intros s q.
    - intros d s s' He%effect_stop_requested. by rewrite He.
    - apply run_body_steps.
    - done. }
  split; [done|]. intros r s Hrun.
  apply finish_inv in Hrun as [-> ->]. simpl. unfold status_msg_of.
  rewrite H.
  destruct (files_downloaded (state_of (run_body w cfg fuel)) =? 0) eqn:E;
    [apply Z.eqb_eq in E|apply Z.eqb_neq in E];
    destruct (url_queue (state_of (run_body w cfg fuel))); simpl;
    split; try done; split; try done; intros [? ?]; done.
Qed.

(** X13: A stop request is honoured before the next task is popped: when the
    flag is set the loop ends at once, whatever is on the queue stays
    there, no file is touched and the report says Stopped by user. *)
Theorem stop_request_ends_run (w : World) (cfg : Config) (fuel : nat)
    (s : State) :
  stop_requested s = true →
  ∃ r s',
    finish cfg (while_queue w cfg fuel s) = Some (r, s')
    ∧ report_status r = "Stopped by user"
    ∧ report_files_downloaded r = files_downloaded s
    ∧ url_queue s' = url_queue s
    ∧ files s' = files s.
Proof.
  intros Hs. rewrite while_queue_stopped by done.
  unfold finish, run_finally, bind, gets, modify, emit, log_message_emit,
    modify, ret. simpl.
  eexists _, _. split; [reflexivity|]. simpl.
  unfold status_msg_of. simpl. by rewrite Hs.
Qed.

Lemma stop_request_ends_run_witness :
  let s := with_stop_requested true (entry_state Demo.about_world demo_config) in
  ∃ r s',
    finish demo_config (while_queue Demo.about_world demo_config 5 s)
    = Some (r, s')
    ∧ report_status r = "Stopped by user"
    ∧ report_files_downloaded r = 0
    ∧ url_queue s' = [(Demo.seed, 0, "/out/site")]
    ∧ files s' = ∅.
Proof.
  intros s.
  apply (stop_request_ends_run Demo.about_world demo_config 5 s).
  reflexivity.
Defined.



(** What the iteration on a page that the static backend cannot fetch
    leaves. *)
Lemma process_task_fetch_failed (w : World) (cfg : Config) (u : string)
    (d : Z) (b : string) (s : State) :
  (use_selenium s && (d =? 0))%bool = false →
  http_get w u = None →
  process_task w cfg (u, d, b) s
  = Ok Next
      (with_signals
         (signals s ++ [log_message (LogProcessing u d);
                        log_message (LogFetchingRequests u);
                        log_message (LogFailedRequests u)]) s).
Proof.
  intros Hsel Hget.
  unfold process_task, fetch_task, _fetch_page_with_requests, bind, gets,
    log_message_emit, emit, modify, ret. simpl.
  rewrite Hsel, Hget. simpl. unfold with_signals. simpl.
  by rewrite <- !app_assoc.
Qed.

(** X15: A page that cannot be fetched is skipped: the failure is logged,
    nothing is written or counted, and the loop goes on with the next task
    on the queue. *)
Theorem failed_fetch_skips_the_task (w : World) (cfg : Config)
    (fuel : nat) (u : string) (d : Z) (b : string) (rest : list Task)
    (s : State) :
  url_queue s = (u, d, b) :: rest →
  stop_requested s = false →
  (use_selenium s && (d =? 0))%bool = false →
  http_get w u = None →
  ∃ s1, while_queue w cfg (S fuel) s = while_queue w cfg fuel s1
        ∧ url_queue s1 = rest
        ∧ files s1 = files s
        ∧ files_downloaded s1 = files_downloaded s
        ∧ enqueued s1 = enqueued s
        ∧ signals s1
          = signals s ++ [log_message (LogProcessing u d);
                          log_message (LogFetchingRequests u);
                          log_message (LogFailedRequests u)].
Proof.
  intros Hq Hs Hsel Hget. simpl. rewrite Hq, Hs.
  rewrite process_task_fetch_failed by done. by eexists.
Qed.

(** X16: When the seed cannot be fetched the run ends after its first
    iteration and reports a failure: no file is counted or written and
    the status is Failed or nothing to download. *)
Theorem unreachable_seed_reports_failure (w : World) (cfg : Config)
    (fuel : nat) :
  (want_selenium cfg && SELENIUM_AVAILABLE w)%bool = false →
  http_get w (base_url cfg) = None →
  ∃ r s,
    run w cfg (S fuel) = Some (r, s)
    ∧ report_status r = "Failed or nothing to download"
    ∧ report_files_downloaded r = 0
    ∧ files s = initial_files w
    ∧ saved_files (signals s) = []
    ∧ enqueued s = [(base_url cfg, 0, dest_path cfg)].
Proof.
  intros Hsel Hget. unfold run. rewrite run_body_entry.
  set (s0 := entry_state w cfg).
  assert (while_queue w cfg (S fuel) s0
          = while_queue w cfg fuel
              (with_signals
                 (signals s0
                  ++ [log_message (LogProcessing (base_url cfg) 0);
                      log_message (LogFetchingRequests (base_url cfg));
                      log_message (LogFailedRequests (base_url cfg))])
                 (with_url_queue [] s0))) as ->.
  { rewrite (while_queue_S w cfg fuel s0 (base_url cfg, 0, dest_path cfg) [])
      by done.
    rewrite process_task_fetch_failed; [done| |done].
    simpl. by rewrite Hsel. }
  destruct fuel; simpl; (eexists _, _; split; [reflexivity|]); done.
Qed.

Lemma failed_fetch_skips_the_task_witness :
  let w := Demo.static_world [] [] 1000 in
  let s := entry_state w demo_config in
  ∃ s1, while_queue w demo_config 5 s = while_queue w demo_config 4 s1
        ∧ url_queue s1 = []
        ∧ files s1 = files s
        ∧ files_downloaded s1 = files_downloaded s
        ∧ enqueued s1 = enqueued s
        ∧ signals s1
          = signals s ++ [log_message (LogProcessing Demo.seed 0);
                          log_message (LogFetchingRequests Demo.seed);
                          log_message (LogFailedRequests Demo.seed)].
Proof.
  intros w s.
  apply (failed_fetch_skips_the_task w demo_config 4 Demo.seed 0 "/out/site"
           [] s); reflexivity.
Defined.

Lemma unreachable_seed_reports_failure_witness :
  let w := Demo.static_world [] [] 1000 in
  ∃ r s,
    run w demo_config 5 = Some (r, s)
    ∧ report_status r = "Failed or nothing to download"
    ∧ report_files_downloaded r = 0
    ∧ files s = ∅
    ∧ saved_files (signals s) = []
    ∧ enqueued s = [(Demo.seed, 0, "/out/site")].
Proof.
  intros w.
  apply (unreachable_seed_reports_failure w demo_config 4); reflexivity.
Defined.

(** X9: The two numbers behind the progress bar: [initial_queue_size] is the
    number of tasks ever put on the queue, and [processed_count], its
    difference to the length of the queue, is the number of tasks taken
    off the queue so far; so the ratio of the two lies between 0 and 1 and
    the denominator is never 0. *)
Theorem progress_counts_popped_tasks (w : World) (cfg : Config)
    (fuel : nat) :
  let s := state_of (run_body w cfg fuel) in
  let processed_count := initial_queue_size s - Z.of_nat (length (url_queue s)) in
  initial_queue_size s = Z.of_nat (length (enqueued s))
  ∧ (∃ popped, enqueued s = popped ++ url_queue s
               ∧ processed_count = Z.of_nat (length popped))
  ∧ 0 ≤ processed_count ≤ initial_queue_size s
  ∧ 1 ≤ initial_queue_size s.
Proof.
  simpl.
  set (I := fun s => initial_queue_size s = Z.of_nat (length (enqueued s))
                     ∧ (∃ popped, enqueued s = popped ++ url_queue s)
                     ∧ 1 ≤ initial_queue_size s).
  assert (I (state_of (run_body w cfg fuel))) as (Hn & [popped Hp] & H1).
  { apply (crawl_steps_invariant w cfg I (fun _ => I))
      with (s := entry_state w cfg).
    - intros s task rest (Hn & [popped Hp] & H1) Hq _.
      split; [done|]. split; [|done]. exists (popped ++ [task]). simpl.
      by rewrite Hp, Hq, <- app_assoc.
    - intros d s s' Heff (Hn & [popped Hp] & H1). unfold I.
      destruct Heff; simpl; try done; try (split; [done|]; split; [|done];
        by exists popped).
      rewrite length_app. simpl. split; [lia|]. split; [|lia].
      exists popped. by rewrite Hp, app_assoc.
    - done.
    - apply run_body_steps.
    - split; [done|]. split; [by exists []|]. simpl. lia. }
  rewrite Hp, length_app in Hn. rewrite Hn.
  split; [by rewrite Hp, length_app|].
  split; [exists popped; split; [done|lia]|]. lia.
Qed.
(** ** File names and references *)

Lemma sub_illegal_id (l : list ascii) :
  forallb (fun c => negb (illegal_char c)) l = true → sub_illegal l = l.
Proof.
  induction l as [|c t IH]; [done|]. simpl.
  intros [Hc Ht]%andb_prop. rewrite (IH Ht).
  by destruct (illegal_char c).
Qed.

Lemma collapse_underscores_id (l : list ascii) :
  no_uu l = true → collapse_underscores l = l.
Proof.
  induction l as [|c t IH]; [done|]. destruct t as [|d t']; [done|].
  intros [Hc Ht]%andb_prop.
  change (collapse_underscores (c :: d :: t'))
    with (if (Ascii.eqb c "_" && Ascii.eqb d "_")%bool
          then collapse_underscores (d :: t')
          else c :: collapse_underscores (d :: t')).
  apply negb_true_iff in Hc. rewrite Hc. by rewrite (IH Ht).
Qed.

Lemma lstrip_chars_id (set l : list ascii) :
  match l with
  | c :: _ => negb (existsb (Ascii.eqb c) set)
  | [] => true
  end = true →
  Py.lstrip_chars set l = l.
Proof.
  destruct l as [|c t]; [done|]. simpl. intros H%negb_true_iff.
  by rewrite H.
Qed.

(** X22: [sanitize_filename] leaves a tidy name as it is: the names of ordinary
    files and directories are kept. *)
Theorem sanitize_filename_keeps_tidy_names (name : string) :
  tidy_name name = true → sanitize_filename name = name.
Proof.
  unfold tidy_name.
  intros [[[[[Hne Hlen]%andb_prop Hill]%andb_prop Huu]%andb_prop
            Hfirst]%andb_prop Hlast]%andb_prop.
  unfold sanitize_filename, sanitize_chars, clean_chars.
  rewrite (sub_illegal_id _ Hill), (collapse_underscores_id _ Huu).
  unfold Py.rstrip_chars.
  rewrite (lstrip_chars_id _ (rev (Py.chars name)) Hlast), rev_involutive.
  rewrite (lstrip_chars_id _ _ Hfirst).
  destruct (Py.chars name) as [|c t] eqn:E.
  { destruct name; [done|]. discriminate E. }
  rewrite take_ge by by apply Nat.leb_le.
  by rewrite <- E, str_chars.
Qed.

Lemma sanitize_filename_keeps_tidy_names_witness :
  sanitize_filename "index.html" = "index.html".
Proof.
  apply sanitize_filename_keeps_tidy_names. reflexivity.
Defined.

Lemma sanitize_chars_nonempty (l : list ascii) : sanitize_chars l ≠ [].
Proof.
  unfold sanitize_chars. by destruct (clean_chars l).
Qed.

Lemma sanitize_filename_nonempty (x : string) :
  Py.falsy (sanitize_filename x) = false.
Proof.
  unfold sanitize_filename.
  pose proof (sanitize_chars_nonempty (Py.chars x)) as H.
  by destruct (sanitize_chars (Py.chars x)).
Qed.

Lemma last_segment_nonempty (p : string) :
  is_nil (segments_of p) = false →
  Py.falsy (List.last (segments_of p) "") = false.
Proof.
  unfold segments_of.
  induction (List.filter PosixPath.nonempty (Py.split "/" (Py.strip "/" p)))
    as [|x t IH]; [done|].
  intros _. destruct t as [|y t']; [apply sanitize_filename_nonempty|].
  by apply IH.
Qed.

Lemma falsy_html (x : string) : Py.falsy (x +:+ ".html") = false.
Proof. by destruct x. Qed.

Lemma append_html_neq (x : string) : x ≠ x +:+ ".html".
Proof.
  intros H. apply (f_equal (fun x => length (Py.chars x))) in H.
  rewrite chars_app, length_app in H. simpl in H. lia.
Qed.

(** X21: The name and the directories under which a page is saved and the ones
    a link to it is rewritten to are computed twice, by the same rules but
    for the last one.  For a URL path they agree exactly when the path ends
    with a slash or has no segment, or its last segment has a dot, or the
    save side takes the content for HTML just when the link side takes the
    URL for a page and not for an asset. *)
Theorem link_and_save_names_agree (p : string)
    (is_html link_is_likely_html is_asset_file : bool) :
  let segs := segments_of p in
  link_name p segs link_is_likely_html is_asset_file = save_name p segs is_html
  ↔ (Py.endswith p "/" || is_nil segs
     || Py.has_char "." (List.last segs "")
     || Bool.eqb is_html (link_is_likely_html && negb is_asset_file))%bool
    = true.
Proof.
  simpl. unfold link_name, save_name.
  destruct (Py.endswith p "/" || is_nil (segments_of p))%bool eqn:E; [done|].
  apply orb_false_elim in E as [_ Hnil].
  pose proof (last_segment_nonempty p Hnil) as Hlast. simpl.
  destruct (Py.has_char "." (List.last (segments_of p) "")) eqn:Hdot.
  { by rewrite Hlast. }
  simpl.
  destruct is_html, (link_is_likely_html && negb is_asset_file)%bool; simpl;
    rewrite ?falsy_html, ?Hlast; split; try done.
  - intros [= H]. by apply append_html_neq in H.
  - intros [= H]. symmetry in H. by apply append_html_neq in H.
Qed.

Lemma for_tags_inert (w : World) (cfg : Config) (url : string) (d : Z)
    (dir name attr_name : string) (soup : list Tag) (s : State) :
  forallb (fun t => match selected name attr_name t with
                    | Some v => skipped v
                    | None => true
                    end) soup = true →
  for_tags w cfg url d dir name attr_name soup s = Ok soup s.
Proof.
  induction soup as [|t rest IH]; [done|]. simpl.
  intros [Ht Hrest]%andb_prop. specialize (IH Hrest).
  destruct (selected name attr_name t) as [v|].
  - unfold bind, gets. destruct (stop_requested s); [done|].
    unfold process_link. unfold skipped in Ht. rewrite Ht.
    unfold ret. rewrite IH. by destruct t.
  - unfold bind. by rewrite IH.
Qed.

Lemma for_attrs_inert (w : World) (cfg : Config) (url : string) (d : Z)
    (dir name : string) (attr_names : list string) (soup : list Tag)
    (s : State) :
  forallb (fun t => forallb (fun attr_name =>
                       match selected name attr_name t with
                       | Some v => skipped v
                       | None => true
                       end) attr_names) soup = true →
  for_attrs w cfg url d dir name attr_names soup s = Ok soup s.
Proof.
  induction attr_names as [|a rest IH]; [done|]. simpl. intros H.
  unfold bind. rewrite for_tags_inert.
  - apply IH. rewrite forallb_forall in H |- *. intros t Ht.
    by destruct (andb_prop _ _ (H t Ht)).
  - rewrite forallb_forall in H |- *. intros t Ht.
    by destruct (andb_prop _ _ (H t Ht)).
Qed.

(** X20: A document whose references are all empty or of the kinds data:,
    javascript:, mailto:, tel: and fragment is left exactly as it was
    parsed: no attribute is rewritten, nothing is fetched or queued, and
    the state of the worker does not change. *)
Theorem inert_references_are_left_alone (w : World) (cfg : Config)
    (url : string) (d : Z) (dir : string) (soup : list Tag) (s : State) :
  inert tags_to_process soup = true →
  for_items w cfg url d dir tags_to_process soup s = Ok soup s.
Proof.
  unfold inert. generalize tags_to_process as items.
  induction items as [|[name attr_names] rest IH]; [done|]. simpl.
  intros H. unfold bind. rewrite for_attrs_inert.
  - unfold gets. destruct (stop_requested s); [done|]. apply IH.
    rewrite forallb_forall in H |- *. intros t Ht.
    by destruct (andb_prop _ _ (H t Ht)).
  - rewrite forallb_forall in H |- *. intros t Ht.
    by destruct (andb_prop _ _ (H t Ht)).
Qed.

Lemma inert_references_are_left_alone_witness :
  let soup := [Demo.a "#top"; Demo.a "mailto:me@example.com";
               Demo.img "data:image/png;base64,AAAA"; Demo.a ""] in
  let s := entry_state Demo.about_world demo_config in
  for_items Demo.about_world demo_config Demo.seed 0 "/out/site"
    tags_to_process soup s = Ok soup s.
Proof.
  intros soup s. apply inert_references_are_left_alone. reflexivity.
Defined.

Lemma bind_or_raise_Some {A B} (e : exn) (a : A) (k : A → M B) (s : State) :
  bind (or_raise e (Some a)) k s = k a s.
Proof. reflexivity. Qed.

(** X18: An asset that is already on disk and not empty is not downloaded
    again: the reference is rewritten to the relative path of the file and
    the state of the worker is unchanged, so no request is made, nothing is
    written and nothing is counted. *)
Theorem present_asset_is_not_fetched_again (w : World) (cfg : Config)
    (url : string) (d : Z) (dir tag attr_name v abs : string)
    (parsed : ParseResult) (data : string) (s : State) :
  skipped v = false →
  String.eqb attr_name "srcset" = false →
  urljoin w url v = Some abs →
  urlparse w abs = Some parsed →
  in_list (scheme parsed) ["http"; "https"] = true →
  is_asset (path parsed) tag = true →
  files s !! file_key w (link_local_path w cfg abs parsed true).2 = Some data →
  Py.falsy data = false →
  ∃ v',
    process_link w cfg url d dir tag attr_name v s = Ok (Some v') s
    ∧ PosixPath.relpath (getcwd w)
        (PosixPath.abspath (getcwd w) (link_local_path w cfg abs parsed true).2)
        (PosixPath.abspath (getcwd w) dir) = Some v'.
Proof.
  intros Hskip Hattr Hjoin Hparse Hscheme Hasset Hfile Hdata.
  unfold process_link. unfold skipped in Hskip. rewrite Hskip, Hattr, Hjoin.
  rewrite bind_or_raise_Some, Hparse, bind_or_raise_Some, Hscheme, Hasset.
  cbn [negb].
  destruct (link_local_path w cfg abs parsed true) as [name final] eqn:E.
  cbn [snd] in Hfile.
  destruct (new_link_value_of_relpath w name final dir s) as (v' & Hv' & Hn).
  exists v'. split; [|done].
  unfold bind at 1. rewrite Hn.
  unfold missing_or_empty, bind, gets, ret. cbv beta iota.
  by rewrite Hfile, Hdata.
Qed.

Lemma present_asset_is_not_fetched_again_witness :
  let w := Demo.full_disk_world in
  let s := state_of (run_body w demo_config 1) in
  ∃ v',
    process_link w demo_config Demo.seed 0 "/out/site" "img" "src"
      "https://example.com/i1.png" s = Ok (Some v') s
    ∧ PosixPath.relpath (getcwd w)
        (PosixPath.abspath (getcwd w)
           (link_local_path w demo_config "https://example.com/i1.png"
              {| scheme := "https"; netloc := "example.com";
                 path := "/i1.png" |} true).2)
        (PosixPath.abspath (getcwd w) "/out/site") = Some v'.
Proof.
  intros w s.
  apply (present_asset_is_not_fetched_again w demo_config Demo.seed 0
           "/out/site" "img" "src" "https://example.com/i1.png"
           "https://example.com/i1.png"
           {| scheme := "https"; netloc := "example.com"; path := "/i1.png" |}
           "x" s); vm_compute; reflexivity.
Defined.


(** ** The dynamic engine and content that is not HTML *)

Lemma selenium_log_app (l k : list Signal) :
  selenium_log (l ++ k) = selenium_log l ++ selenium_log k.
Proof. apply omap_app. Qed.

(** The first iteration processes the seed. *)
Lemma run_body_first (w : World) (cfg : Config) :
  state_of (run_body w cfg 1)
  = state_of (process_task w cfg (base_url cfg, 0, dest_path cfg)
                (with_url_queue [] (entry_state w cfg))).
Proof.
  rewrite run_body_entry.
  rewrite (while_queue_S w cfg 0 _ (base_url cfg, 0, dest_path cfg) [])
    by done.
  destruct (process_task w cfg (base_url cfg, 0, dest_path cfg)
              (with_url_queue [] (entry_state w cfg))) as [[|] s'|e s'];
    [apply while_queue_zero|done|done].
Qed.

(** X11: The dynamic engine is used for the seed page only: whatever the
    Selenium backend logs in a run it logs in the first iteration, the one
    on the seed; every later page is fetched by the static backend. *)
Theorem selenium_only_for_the_seed (w : World) (cfg : Config) (more : nat) :
  selenium_log (signals (state_of (run_body w cfg (1 + more))))
  = selenium_log (signals (state_of (run_body w cfg 1))).
Proof.
  set (s1 := state_of (run_body w cfg 1)).
  set (I := fun s => Forall (fun t => 1 ≤ task_depth t) (url_queue s)
                     ∧ selenium_log (signals s) = selenium_log (signals s1)).
  set (J := fun d s => 1 ≤ d ∧ I s).
  enough (I (state_of (run_body w cfg (1 + more)))) as [_ H] by done.
  apply (crawl_steps_invariant w cfg I J) with (s := s1).
  - intros s task rest [Hq Hs] Hpop _. rewrite Hpop in Hq.
    apply Forall_cons in Hq as [Ht Hrest]. by repeat split.
  - intros d s s' Heff (Hd & Hq & Hs). unfold J, I.
    destruct Heff as [m s Hm| | | | | | |]; simpl;
      rewrite ?selenium_log_app; simpl; rewrite ?app_nil_r;
      try (by repeat split).
    + split; [done|]. split; [done|].
      destruct (selenium_msg m); [|by rewrite app_nil_r].
      destruct (Hm eq_refl) as [? _]. lia.
    + split; [done|]. split; [|done].
      apply Forall_app. split; [done|]. apply Forall_singleton.
      unfold task_depth. simpl. lia.
  - by intros d s [_ ?].
  - apply run_body_steps_more.
  - split; [|done]. unfold s1. rewrite run_body_first.
    pose proof (process_task_effects w cfg (base_url cfg, 0, dest_path cfg)
                  (with_url_queue [] (entry_state w cfg))) as He.
    apply effects_queue in He as (new & -> & Hnew & _). simpl.
    eapply Forall_impl; [exact Hnew|]. simpl. intros t ->.
    unfold task_depth. simpl. lia.
Qed.



(** ** The settings dialog and the proxy

    A Python dictionary of strings is the list of its pairs in insertion
    order, with [get_attr] for [get] and [set_attr] for the assignment.
    The editor of the headers is taken to return the text it was given. *)

Lemma get_set_attr (k v : string) (d : list (string * string)) :
  get_attr k (set_attr k v d) = Some v.
Proof.
  induction d as [|[k' v'] t IH]; simpl; [by rewrite String.eqb_refl|].
  destruct (String.eqb k k') eqn:E; simpl; by rewrite ?String.eqb_refl, ?E.
Qed.

Lemma get_set_attr_ne (k k' v : string) (d : list (string * string)) :
  k ≠ k' → get_attr k (set_attr k' v d) = get_attr k d.
Proof.
  intros Hne. apply String.eqb_neq in Hne.
  induction d as [|[k1 v1] t IH]; simpl; [by rewrite Hne|].
  destruct (String.eqb k' k1) eqn:E; simpl.
  - apply String.eqb_eq in E as <-. by rewrite Hne.
  - by rewrite IH.
Qed.

(** X23: The headers that the dialog returns always have a User-Agent that is
    not empty, whatever the text of the editor: a missing or empty one is
    replaced by the default. *)
Theorem settings_always_have_a_user_agent (text : string) :
  ∃ ua, get_attr "User-Agent" (get_settings_headers text) = Some ua
        ∧ Py.falsy ua = false.
Proof.
  unfold get_settings_headers, truthy_get.
  destruct (get_attr "User-Agent" (parse_header_lines (splitlines text)))
    as [ua|] eqn:E.
  - destruct (Py.falsy ua) eqn:F; simpl.
    + exists DEFAULT_USER_AGENT. by rewrite get_set_attr.
    + exists ua. by rewrite E.
  - simpl. exists DEFAULT_USER_AGENT. by rewrite get_set_attr.
Qed.

Lemma splitlines_go_app (cur l rest : list ascii) :
  forallb (fun c => negb (is_linebreak c)) l = true →
  splitlines_go cur (l ++ rest) = splitlines_go (rev l ++ cur) rest.
Proof.
  revert cur. induction l as [|c t IH]; intros cur; [done|].
  simpl. intros [Hc Ht]%andb_prop. apply negb_true_iff in Hc.
  assert ((nat_of_ascii c =? 13)%nat = false) as ->.
  { unfold is_linebreak in Hc.
    destruct (nat_of_ascii c =? 13)%nat eqn:E; [|done].
    apply Nat.eqb_eq in E. by rewrite E in Hc. }
  rewrite Hc, (IH _ Ht). by rewrite <- app_assoc.
Qed.

Lemma chars_newline : Py.chars newline = [ascii_of_nat 10].
Proof. reflexivity. Qed.

Lemma splitlines_go_join (lines : list string) :
  forallb (fun l => negb (Py.falsy l) && one_line l)%bool lines = true →
  splitlines_go [] (Py.chars (Py.join newline lines)) = map Py.chars lines.
Proof.
  induction lines as [|x t IH]; [done|].
  intros [[Hx Hone]%andb_prop Ht]%andb_prop. specialize (IH Ht).
  destruct t as [|y t'].
  - simpl. rewrite <- (app_nil_r (Py.chars x)).
    rewrite (splitlines_go_app [] _ [] Hone), !app_nil_r. simpl.
    destruct x as [|c x']; [done|].
    destruct (rev (Py.chars (String c x'))) eqn:E.
    + apply (f_equal (@length ascii)) in E. rewrite length_rev in E. done.
    + by rewrite <- E, rev_involutive.
  - change (Py.join newline (x :: y :: t'))
      with (x +:+ newline +:+ Py.join newline (y :: t')).
    rewrite !chars_app, chars_newline.
    rewrite (splitlines_go_app [] _ _ Hone), app_nil_r.
    change (splitlines_go (rev (Py.chars x))
              ([ascii_of_nat 10] ++ Py.chars (Py.join newline (y :: t'))))
      with (rev (rev (Py.chars x))
            :: splitlines_go [] (Py.chars (Py.join newline (y :: t')))).
    by rewrite rev_involutive, IH.
Qed.

Lemma splitlines_join (lines : list string) :
  forallb (fun l => negb (Py.falsy l) && one_line l)%bool lines = true →
  splitlines (Py.join newline lines) = lines.
Proof.
  intros H. unfold splitlines. rewrite (splitlines_go_join lines H).
  rewrite map_map. rewrite <- (map_id lines) at 2.
  apply map_ext. intros. apply str_chars.
Qed.

Lemma split_colon_header (k v : string) :
  Py.has_char ":" k = false →
  split_colon (k +:+ ": " +:+ v) = Some (k, " " +:+ v).
Proof.
  induction k as [|c k IH]; [done|].
  unfold Py.has_char. simpl. intros [Hc Hk]%orb_false_elim.
  rewrite Ascii.eqb_sym in Hc. rewrite Hc.
  unfold Py.has_char in IH. by rewrite (IH Hk).
Qed.

Lemma lstrip_ws_id (l : list ascii) :
  match l with c :: _ => negb (Py.is_space c) | [] => true end = true →
  Py.lstrip_ws l = l.
Proof.
  destruct l as [|c t]; [done|]. simpl. intros H%negb_true_iff.
  by rewrite H.
Qed.

Lemma strip_ws_stripped (s : string) :
  stripped s = true → Py.strip_ws s = s.
Proof.
  unfold stripped, Py.strip_ws. intros [H1 H2]%andb_prop.
  by rewrite (lstrip_ws_id _ H2), rev_involutive, (lstrip_ws_id _ H1),
    str_chars.
Qed.

Lemma strip_ws_space_stripped (s : string) :
  stripped s = true → Py.strip_ws (" " +:+ s) = s.
Proof.
  unfold stripped, Py.strip_ws. intros [H1 H2]%andb_prop.
  change (Py.chars (" " +:+ s)) with (" "%char :: Py.chars s).
  change (rev (" "%char :: Py.chars s)) with (rev (Py.chars s) ++ [" "%char]).
  destruct (rev (Py.chars s)) as [|c t] eqn:E.
  - apply (f_equal (@rev ascii)) in E. rewrite rev_involutive in E.
    simpl in E. destruct s; [done|]. discriminate E.
  - apply negb_true_iff in H2.
    change (Py.lstrip_ws ((c :: t) ++ [" "%char]))
      with (if Py.is_space c then Py.lstrip_ws (t ++ [" "%char])
            else c :: t ++ [" "%char]).
    rewrite H2.
    change (c :: t ++ [" "%char]) with ((c :: t) ++ [" "%char]).
    rewrite <- E, rev_app_distr, rev_involutive. simpl.
    by rewrite (lstrip_ws_id _ H1), str_chars.
Qed.

Lemma set_attr_new (k v : string) (d : list (string * string)) :
  get_attr k d = None → set_attr k v d = d ++ [(k, v)].
Proof.
  induction d as [|[k' v'] t IH]; [done|]. simpl.
  destruct (String.eqb k k'); [done|]. intros H. by rewrite (IH H).
Qed.

Lemma get_attr_app_None (k : string) (d e : list (string * string)) :
  get_attr k d = None → get_attr k (d ++ e) = get_attr k e.
Proof.
  induction d as [|[k' v'] t IH]; [done|]. simpl.
  destruct (String.eqb k k'); [done|]. apply IH.
Qed.

Lemma get_attr_app_r (k : string) (d e : list (string * string)) :
  get_attr k (d ++ e) = None → get_attr k d = None ∧ get_attr k e = None.
Proof.
  induction d as [|[k' v'] t IH]; [done|]. simpl.
  destruct (String.eqb k k'); [done|]. apply IH.
Qed.

Lemma parse_header_lines_app (done todo : list (string * string)) :
  forallb header_ok todo = true →
  distinct_keys (done ++ todo) = true →
  fold_left
    (fun headers line =>
       match split_colon line with
       | Some (key, value) =>
           set_attr (Py.strip_ws key) (Py.strip_ws value) headers
       | None => headers
       end)
    (map header_line todo) done
  = done ++ todo.
Proof.
  revert done. induction todo as [|[k v] t IH]; intros done Hok Hdist.
  { by rewrite app_nil_r. }
  simpl in Hok. apply andb_prop in Hok as [Hkv Ht].
  unfold header_ok in Hkv. simpl in Hkv.
  apply andb_prop in Hkv as [[[[Hcolon Hk]%andb_prop Hv]%andb_prop _]%andb_prop _].
  apply negb_true_iff in Hcolon.
  simpl. change (header_line (k, v)) with (k +:+ ": " +:+ v).
  rewrite (split_colon_header k v Hcolon).
  rewrite (strip_ws_stripped k Hk), (strip_ws_space_stripped v Hv).
  assert (get_attr k done = None) as Hnew.
  { clear -Hdist. induction done as [|[k' v'] d IH]; [done|].
    simpl in Hdist. apply andb_prop in Hdist as [H1 H2]. simpl.
    destruct (String.eqb k k') eqn:E.
    - apply String.eqb_eq in E as <-.
      destruct (get_attr k (d ++ (k, v) :: t)) eqn:G; [done|].
      apply get_attr_app_r in G as [_ G]. simpl in G.
      by rewrite String.eqb_refl in G.
    - by apply IH. }
  rewrite (set_attr_new k v done Hnew).
  rewrite (IH (done ++ [(k, v)]) Ht); rewrite <- app_assoc; done.
Qed.

Lemma header_line_ok (kv : string * string) :
  header_ok kv = true →
  (negb (Py.falsy (header_line kv)) && one_line (header_line kv))%bool = true.
Proof.
  destruct kv as [k v]. unfold header_ok, header_line. simpl.
  intros [[_ Hk]%andb_prop Hv]%andb_prop.
  apply andb_true_intro. split.
  - by destruct k.
  - unfold one_line in *. rewrite !chars_app, !forallb_app, Hk, Hv. done.
Qed.

(** X24: Opening the settings and saving them again keeps the headers: for a
    dictionary with a User-Agent whose keys and values are single lines
    without white space at their ends, the keys without a colon, the text
    that the dialog shows is read back as the same dictionary, in the same
    order. *)
Theorem headers_survive_the_dialog (headers : list (string * string)) :
  forallb header_ok headers = true →
  distinct_keys headers = true →
  truthy_get "User-Agent" headers = true →
  get_settings_headers (header_text headers) = headers.
Proof.
  intros Hok Hdist Hua.
  assert (splitlines (header_text headers) = map header_line headers) as Hl.
  { unfold header_text.
    destruct (Py.falsy (Py.join newline (map header_line headers))) eqn:F.
    - destruct headers as [|kv t]; [done|]. exfalso.
      simpl in Hok. apply andb_prop in Hok as [Hkv _].
      apply header_line_ok in Hkv as [Hne _]%andb_prop.
      simpl in F. destruct (map header_line t).
      + by rewrite F in Hne.
      + destruct (header_line kv); [done|]. by rewrite append_cons in F.
    - apply splitlines_join. rewrite forallb_forall in Hok |- *.
      intros l (kv & <- & Hkv)%in_map_iff. by apply header_line_ok, Hok. }
  unfold get_settings_headers. rewrite Hl. unfold parse_header_lines.
  rewrite (parse_header_lines_app [] headers Hok Hdist). simpl.
  by rewrite Hua.
Qed.

Lemma headers_survive_the_dialog_witness :
  let headers := [("User-Agent", DEFAULT_USER_AGENT);
                  ("Accept-Language", "en-GB, en;q=0.5");
                  ("X-Empty", "")] in
  get_settings_headers (header_text headers) = headers.
Proof.
  intros headers. apply headers_survive_the_dialog; reflexivity.
Defined.

Lemma contains_app_l (a b sub : string) :
  Py.contains a sub = true → Py.contains (a +:+ b) sub = true.
Proof.
  assert (∀ a, Py.is_prefix sub a = true → Py.is_prefix sub (a +:+ b) = true)
    as Hpre.
  { induction sub as [|c sub IH]; [done|]. intros [|c' a']; [done|].
    rewrite append_cons. simpl. intros [-> H]%andb_prop. by rewrite (IH a' H). }
  induction a as [|c a IH]; simpl.
  - rewrite orb_false_r. intros H. destruct sub; [|done].
    by destruct b.
  - intros [H|H]%orb_prop.
    + apply (Hpre (String c a)) in H. rewrite append_cons in H.
      rewrite ?append_cons. simpl. simpl in H. by rewrite H.
    + rewrite ?append_cons. simpl. rewrite (IH H). apply orb_true_r.
Qed.

Lemma endswith_app (a b : string) : Py.endswith (a +:+ b) b = true.
Proof.
  unfold Py.endswith. rewrite chars_app, rev_app_distr.
  generalize (rev (Py.chars a)) as k.
  induction (rev (Py.chars b)) as [|c l IH]; intros k; simpl; [done|].
  by rewrite Ascii.eqb_refl, IH.
Qed.

(** X25: With a proxy host and a port in the settings both backends use the
    same proxy URL: the one built for Requests, which always has a scheme
    (the one the user gave, or http), is also what Chrome is started with,
    so the branch of the worker that adds a scheme is never taken.  Without
    a host or without a port neither backend uses a proxy. *)
Theorem both_backends_use_the_same_proxy (proxy_ip proxy_port : string) :
  let proxy_settings := proxy_config proxy_ip proxy_port in
  if (negb (Py.falsy proxy_ip) && negb (Py.falsy proxy_port))%bool
  then ∃ proxy_url,
         selenium_proxy proxy_settings = Some proxy_url
         ∧ requests_proxy proxy_settings = Some proxy_url
         ∧ get_attr "https" proxy_settings = Some proxy_url
         ∧ Py.contains proxy_url "://" = true
         ∧ Py.endswith proxy_url (":" +:+ proxy_port) = true
  else selenium_proxy proxy_settings = None
       ∧ requests_proxy proxy_settings = None.
Proof.
  simpl. unfold proxy_config.
  destruct (negb (Py.falsy proxy_ip) && negb (Py.falsy proxy_port))%bool eqn:E;
    [|done].
  apply andb_prop in E as [Hip _]. apply negb_true_iff in Hip.
  set (u := if Py.contains proxy_ip "://"
            then proxy_ip +:+ ":" +:+ proxy_port
            else "http://" +:+ proxy_ip +:+ ":" +:+ proxy_port).
  assert (Py.contains u "://" = true) as Hc.
  { unfold u. destruct (Py.contains proxy_ip "://") eqn:C.
    - by apply contains_app_l.
    - reflexivity. }
  assert (Py.falsy u = false) as Hu.
  { unfold u. destruct (Py.contains proxy_ip "://"); [|done].
    by destruct proxy_ip. }
  assert (Py.endswith u (":" +:+ proxy_port) = true) as He.
  { unfold u. destruct (Py.contains proxy_ip "://").
    - apply endswith_app.
    - rewrite <- (append_assoc "http://" proxy_ip). apply endswith_app. }
  set (d := set_attr "https" u (set_attr "http" u [])).
  assert (get_attr "http" d = Some u) as Hhttp by reflexivity.
  assert (get_attr "https" d = Some u) as Hhttps by reflexivity.
  exists u. unfold selenium_proxy, requests_proxy, truthy_get, get_or_empty.
  rewrite Hhttp, Hhttps, Hu, Hc. cbn [negb andb orb]. rewrite ?Hu.
  split; [by destruct (negb (existsb _ _))|]. by repeat split.
Qed.
(** ** Local paths *)

Lemma sanitize_chars_allowed (l : list ascii) :
  Forall allowed (sanitize_chars l).
Proof.
  unfold sanitize_chars.
  assert (Forall allowed
            match clean_chars l with
            | [] => Py.chars "untitled"
            | _ => clean_chars l
            end) as H.
  { destruct (clean_chars l) eqn:E.
    - apply Forall_forall. intros c Hc. apply illegal_char_false.
      repeat (apply elem_of_cons in Hc as [->|Hc]; [done|]).
      by apply elem_of_nil in Hc.
    - rewrite <- E. apply clean_chars_sub, sub_illegal_allowed. }
  rewrite <- (take_drop max_len _) in H. by apply Forall_app_l in H.
Qed.

Lemma sanitize_filename_relative (x : string) :
  relative (sanitize_filename x).
Proof.
  unfold relative, sanitize_filename.
  pose proof (sanitize_chars_allowed (Py.chars x)) as H.
  destruct (sanitize_chars (Py.chars x)) as [|c t]; [done|].
  apply Forall_cons in H as [[Hc _] _]. simpl.
  destruct (Ascii.eqb "/" c) eqn:E; [|done].
  apply Ascii.eqb_eq in E as <-. exfalso. apply Hc.
  unfold forbidden_chars. set_solver.
Qed.

Lemma segments_of_relative (p : string) : Forall relative (segments_of p).
Proof.
  unfold segments_of. apply Forall_forall. intros x Hx.
  apply list_elem_of_In, in_map_iff in Hx as (y & <- & _).
  apply sanitize_filename_relative.
Qed.

Lemma relative_removelast (l : list string) :
  Forall relative l → Forall relative (removelast l).
Proof.
  induction l as [|x t IH]; [done|]. intros [Hx Ht]%Forall_cons.
  destruct t as [|y t']; [constructor|].
  change (removelast (x :: y :: t')) with (x :: removelast (y :: t')).
  apply Forall_cons. split; [done|]. by apply IH.
Qed.

Lemma relative_last (l : list string) :
  Forall relative l → relative (List.last l "").
Proof.
  induction l as [|x t IH]; [done|]. intros [Hx Ht]%Forall_cons.
  destruct t as [|y t']; [done|]. by apply IH.
Qed.

Lemma relative_html (x : string) : relative x → relative (x +:+ ".html").
Proof. destruct x; [done|]. by rewrite append_cons. Qed.

Lemma append_nil_r (a : string) : a +:+ "" = a.
Proof. induction a as [|c a IH]; [done|]. by rewrite append_cons, IH. Qed.

Lemma join2_extends (base x : string) :
  relative x → ∃ rest, PosixPath.join2 base x = base +:+ rest.
Proof.
  unfold relative, PosixPath.join2, PosixPath.sep. intros ->.
  destruct (Py.falsy base || Py.endswith base "/")%bool; by eexists.
Qed.

Lemma join_extends (base : string) (l : list string) :
  Forall relative l → ∃ rest, PosixPath.join base l = base +:+ rest.
Proof.
  unfold PosixPath.join. revert base.
  induction l as [|x t IH]; intros base.
  - exists "". by rewrite append_nil_r.
  - intros [Hx Ht]%Forall_cons. simpl.
    destruct (join2_extends base x Hx) as [r1 ->].
    destruct (IH (base +:+ r1) Ht) as [r2 ->].
    exists (r1 +:+ r2). by rewrite append_assoc.
Qed.

Lemma dir_under_extends (base : string) (l : list string) :
  Forall relative l → ∃ rest, dir_under base l = base +:+ rest.
Proof.
  intros H. unfold dir_under. destruct (is_nil l).
  - exists "". by rewrite append_nil_r.
  - by apply join_extends.
Qed.

Lemma link_name_relative (p : string) (likely is_asset_file : bool) :
  relative (link_name p (segments_of p) likely is_asset_file).1
  ∧ Forall relative (link_name p (segments_of p) likely is_asset_file).2.
Proof.
  pose proof (segments_of_relative p) as H.
  pose proof (relative_last _ H) as Hl.
  pose proof (relative_removelast _ H) as Hr.
  unfold link_name.
  destruct (_ || _)%bool; [done|].
  destruct (Py.has_char _ _); simpl.
  - by destruct (Py.falsy _).
  - destruct (_ && _)%bool; simpl.
    + split; [|done]. destruct (Py.falsy _); [done|]. by apply relative_html.
    + by destruct (Py.falsy _).
Qed.

Lemma save_name_relative (p : string) (is_html : bool) :
  relative (save_name p (segments_of p) is_html).1
  ∧ Forall relative (save_name p (segments_of p) is_html).2.
Proof.
  pose proof (segments_of_relative p) as H.
  pose proof (relative_last _ H) as Hl.
  pose proof (relative_removelast _ H) as Hr.
  unfold save_name.
  destruct (_ || _)%bool; [by destruct is_html|].
  destruct (Py.has_char _ _); simpl.
  - by destruct (Py.falsy _), is_html.
  - destruct is_html; simpl.
    + split; [|done]. destruct (Py.falsy _); [done|]. by apply relative_html.
    + by destruct (Py.falsy _).
Qed.

(** X26: No part of a URL can replace the directory it is saved under: every
    local path, of a reference and of a page alike, is the save base
    followed by the directories and the name taken from the URL, and the
    save base of a reference is the destination root followed by nothing or
    by the name of the other domain.  (A component of two dots can still
    climb out of it.) *)
Theorem local_paths_extend_the_save_base (w : World) (cfg : Config) :
  (∀ (absolute_link : string) (parsed : ParseResult) (is_asset_file : bool),
     ∃ rest,
       (link_local_path w cfg absolute_link parsed is_asset_file).2
       = dest_path cfg +:+ rest)
  ∧ (∀ (base p : string) (is_html : bool),
       ∃ rest,
         PosixPath.join
           (dir_under base (save_name p (segments_of p) is_html).2)
           [(save_name p (segments_of p) is_html).1]
         = base +:+ rest).
Proof.
  split.
  - intros absolute_link parsed is_asset_file. unfold link_local_path.
    destruct (link_name_relative (unquote w (path parsed))
                (link_is_likely_html absolute_link) is_asset_file)
      as [Hname Hdirs].
    destruct (link_name _ _ _ _) as [name dirs]. cbn [fst snd] in *.
    assert (∃ r0, base_save_path w cfg (get_domain w absolute_link)
                  = dest_path cfg +:+ r0) as [r0 ->].
    { unfold base_save_path. destruct (String.eqb _ _).
      - exists "". by rewrite append_nil_r.
      - apply join_extends, Forall_singleton, sanitize_filename_relative. }
    destruct (dir_under_extends (dest_path cfg +:+ r0) dirs Hdirs) as [r1 ->].
    destruct (join_extends ((dest_path cfg +:+ r0) +:+ r1) [name]) as [r2 ->].
    { by apply Forall_singleton. }
    exists (r0 +:+ r1 +:+ r2). by rewrite !append_assoc.
  - intros base p is_html.
    destruct (save_name_relative p is_html) as [Hname Hdirs].
    destruct (save_name _ _ _) as [name dirs]. cbn [fst snd] in *.
    destruct (dir_under_extends base dirs Hdirs) as [r1 ->].
    destruct (join_extends (base +:+ r1) [name]) as [r2 ->].
    { by apply Forall_singleton. }
    exists (r1 +:+ r2). by rewrite append_assoc.
Qed.
